(** * VibeS: partner compatibility scoring, ranking and radar layout

    A shallow embedding of [src/components/matching/RadarMatching.tsx]:
    the scorer [calculateSmartCompatibility], the ranking pipeline of
    [fetchPotentialPartners] / [startRadarScan], the ring assignment
    [getCompatibilityRing] / [calculateRadarPositions] and the collision
    avoidance loop [adjustPositions].

    Conventions of the embedding.
    - A JavaScript [number] that holds a score is an exact rational ([Q]);
      [Math.round] maps it to an integer ([Z]).  Coordinates of the radar
      are real numbers ([R]): the layout takes square roots and calls
      [Math.atan2], [Math.cos] and [Math.sin].  Rounding errors of the
      IEEE-754 doubles are not modelled there: where a double lands just
      below a half that the exact quotient reaches (23 common subjects of
      40 give 57.49999999999999 in doubles and 57.5 here), [Math.round]
      of the code is one below [mathRound].
    - A property read from a database value may be missing; every such field
      is an [option], [None] standing for [undefined].
    - Strings are sequences of code units below 256 (Latin-1);
      [toLowerCase] folds the capital letters among them.
    - [Binary64] models [adjustPositions] a second time, on binary64
      numbers, for the statements about the repulsion, which depend on
      rounding. *)

From Stdlib Require Import ZArith QArith Qround Reals Lra Lia Psatz.
From Stdlib Require Import Ascii String Sorted.
From Stdlib Require Floats.
From stdpp Require Import base tactics option list.

(** ** Strings *)

Module Str.

(** The lower-case form of a code unit below 256: the letters A-Z and the
    capital letters of Latin-1 (192 to 222 without the multiplication sign
    215) move up by 32. *)
Definition lowerChar (c : ascii) : ascii :=
  let n := nat_of_ascii c in
  if (65 <=? n)%nat && (n <=? 90)%nat
     || (192 <=? n)%nat && (n <=? 222)%nat && negb (n =? 215)%nat
  then ascii_of_nat (n + 32) else c.

(** [s.toLowerCase()] *)
Fixpoint toLowerCase (s : string) : string :=
  match s with
  | EmptyString => EmptyString
  | String c r => String (lowerChar c) (toLowerCase r)
  end.

(** [s.includes(t)]: [t] occurs in [s] as a contiguous substring. *)
Fixpoint includes (s t : string) : bool :=
  String.prefix t s ||
  match s with
  | EmptyString => false
  | String _ r => includes r t
  end.

(** [a === b] on two properties that may be [undefined]. *)
Definition strictEq (a b : option string) : bool :=
  match a, b with
  | Some x, Some y => String.eqb x y
  | None, None => true
  | _, _ => false
  end.

End Str.

(** ** Profiles *)

(** The value stored under [users/<key>]: what [snapshot.val()] returns.
    The writers of this repository store no [id] property in it, so the
    spread [{ id: key, ...user }] leaves the key as the identifier.  The
    onboarding writer stores no [name] either. *)
Record StoredUser := mkStored {
  s_name : option string;
  s_studyField : string;
  s_subjects : option (list string);
  s_university : option string;
  s_faculty : option string;
  s_city : option string;
  s_country : option string;
  s_yearOfStudy : option Z
}.

(** [interface UserProfile] (the display-only properties [location],
    [avatar] and [position] are left out). *)
Record UserProfile := mkProfile {
  id : string;
  name : option string;
  studyField : string;
  subjects : option (list string);
  university : option string;
  faculty : option string;
  city : option string;
  country : option string;
  yearOfStudy : option Z;
  smartCompatibility : option Z;
  subjectMatch : option Z;
  institutionMatch : option Z;
  locationMatch : option Z
}.

(** [{ id: key, ...user }] *)
Definition profileOf (key : string) (user : StoredUser) : UserProfile :=
  {| id := key;
     name := s_name user;
     studyField := s_studyField user;
     subjects := s_subjects user;
     university := s_university user;
     faculty := s_faculty user;
     city := s_city user;
     country := s_country user;
     yearOfStudy := s_yearOfStudy user;
     smartCompatibility := None;
     subjectMatch := None;
     institutionMatch := None;
     locationMatch := None |}.

(** ** The compatibility scorer *)

Module Scorer.

(** The object returned by [calculateSmartCompatibility]. *)
Record ScoreBreakdown := mkScore {
  total : Z;
  subject : Z;
  institution : Z;
  location : Z
}.

(** [Math.round(x)]: the integer nearest to [x], halves going up. *)
Definition mathRound (x : Q) : Z := Qfloor (x + (1 # 2)).

(** The callback of [some]: one requester subject against one candidate
    subject. *)
Definition subjectsOverlap (subject userSubject : string) : bool :=
  Str.includes (Str.toLowerCase userSubject) (Str.toLowerCase subject) ||
  Str.includes (Str.toLowerCase subject) (Str.toLowerCase userSubject).

(** [currentUserProfile.subjects?.some(...)], [undefined] being falsy. *)
Definition someOverlap (cur : UserProfile) (subject : string) : bool :=
  match subjects cur with
  | Some us => existsb (subjectsOverlap subject) us
  | None => false
  end.

(** [partner.subjects?.filter(...) || []] *)
Definition commonSubjects (cur partner : UserProfile) : list string :=
  match subjects partner with
  | Some ps => List.filter (someOverlap cur) ps
  | None => []
  end.

(** [p.subjects?.length || 1] *)
Definition lengthOr1 (p : UserProfile) : nat :=
  match subjects p with
  | Some l => match length l with O => 1 | n => n end
  | None => 1
  end.

Definition subjectScore (cur partner : UserProfile) : Q :=
  (inject_Z (Z.of_nat (length (commonSubjects cur partner)))
   / inject_Z (Z.of_nat (Nat.max (lengthOr1 partner) (lengthOr1 cur))))
  * 100.

Definition institutionScore (cur partner : UserProfile) : Q :=
  if Str.strictEq (university partner) (university cur) then
    if Str.strictEq (faculty partner) (faculty cur) then 100 else 100
  else 60.

Definition locationScore (cur partner : UserProfile) : Q :=
  if Str.strictEq (city partner) (city cur) then 100
  else if Str.strictEq (country partner) (country cur) then 70
  else 30.

(** [Math.abs(a - b) <= 1 ? 10 : 0]; a missing year makes the difference
    [NaN], and every comparison with [NaN] is false. *)
Definition yearBonus (cur partner : UserProfile) : Q :=
  match yearOfStudy partner, yearOfStudy cur with
  | Some a, Some b => if (Z.abs (a - b) <=? 1)%Z then 10 else 0
  | _, _ => 0
  end.

Definition totalScore (cur partner : UserProfile) : Q :=
  subjectScore cur partner * 0.4 + institutionScore cur partner * 0.3
  + locationScore cur partner * 0.2 + yearBonus cur partner.

Definition calculateSmartCompatibility
    (currentUserProfile : option UserProfile) (partner : UserProfile)
    : ScoreBreakdown :=
  match currentUserProfile with
  | None => {| total := 0; subject := 0; institution := 0; location := 0 |}
  | Some cur =>
      {| total := mathRound (totalScore cur partner);
         subject := mathRound (subjectScore cur partner);
         institution := mathRound (institutionScore cur partner);
         location := mathRound (locationScore cur partner) |}
  end.

End Scorer.

(** ** Library functions of the JavaScript runtime *)

Module JS.

(** [v || 0] on a number that may be [undefined] ([0 || 0] is [0]). *)
Definition orZero (v : option Z) : Z :=
  match v with
  | Some n => n
  | None => 0
  end.

(** [Array.prototype.sort(compareFn)].  ECMAScript requires the sort to be
    stable and to order the array by [compareFn]; it is modelled as the
    stable insertion sort. *)
Section Sort.
Context {A : Type} (compareFn : A -> A -> Z).

Fixpoint insertSorted (a : A) (l : list A) : list A :=
  match l with
  | [] => [a]
  | b :: r =>
      if (compareFn a b <=? 0)%Z then a :: b :: r
      else b :: insertSorted a r
  end.

Fixpoint sort (l : list A) : list A :=
  match l with
  | [] => []
  | a :: r => insertSorted a (sort r)
  end.
End Sort.

(** [Math.atan2(y, x)] on real arguments. *)
Definition atan2 (y x : R) : R :=
  if Rlt_dec 0 x then atan (y / x)
  else if Rlt_dec x 0 then
    if Rle_dec 0 y then atan (y / x) + PI else atan (y / x) - PI
  else if Rlt_dec 0 y then PI / 2
  else if Rlt_dec y 0 then - (PI / 2)
  else 0.

End JS.

(** ** The match ranker *)

Module Ranker.
Import Scorer.

(** The outcome of [get(usersQuery)]: the call is rejected, or it yields a
    snapshot whose children are the stored users, in database order. *)
Inductive QueryResult :=
  | QueryFailed
  | Snapshot (children : list (string * StoredUser)).

Definition fetchPotentialPartners
    (currentUserProfile : option UserProfile) (result : QueryResult)
    : list UserProfile :=
  match currentUserProfile with
  | None => []
  | Some cur =>
      match result with
      | QueryFailed => []
      | Snapshot [] => []
      | Snapshot children =>
          foldl (fun partners child =>
                   if negb (String.eqb (fst child) (id cur))
                   then partners ++ [profileOf (fst child) (snd child)]
                   else partners)
                [] children
      end
  end.

(** The callback of [potentialPartners.map]. *)
Definition withCompatibility
    (currentUserProfile : option UserProfile) (partner : UserProfile)
    : UserProfile :=
  let compatibility := calculateSmartCompatibility currentUserProfile partner in
  {| id := id partner;
     name := name partner;
     studyField := studyField partner;
     subjects := subjects partner;
     university := university partner;
     faculty := faculty partner;
     city := city partner;
     country := country partner;
     yearOfStudy := yearOfStudy partner;
     smartCompatibility := Some (total compatibility);
     subjectMatch := Some (subject compatibility);
     institutionMatch := Some (institution compatibility);
     locationMatch := Some (location compatibility) |}.

(** [(a, b) => (b.smartCompatibility || 0) - (a.smartCompatibility || 0)] *)
Definition byCompatibility (a b : UserProfile) : Z :=
  (JS.orZero (smartCompatibility b) - JS.orZero (smartCompatibility a))%Z.

(** [potentialPartners.map(...).sort(...).slice(0, 6)] *)
Definition smartMatches
    (currentUserProfile : option UserProfile)
    (potentialPartners : list UserProfile) : list UserProfile :=
  take 6 (JS.sort byCompatibility
            (map (withCompatibility currentUserProfile) potentialPartners)).

(** [startRadarScan] as a transformer of the [matchedPartners] state: with
    no requester profile the state is left alone. *)
Definition startRadarScan
    (currentUserProfile : option UserProfile) (result : QueryResult)
    (matchedPartners : list UserProfile) : list UserProfile :=
  match currentUserProfile with
  | None => matchedPartners
  | Some _ =>
      smartMatches currentUserProfile
        (fetchPotentialPartners currentUserProfile result)
  end.

(** The pool with the requester removed, as keys and stored values. *)
Definition poolMinusRequester
    (cur : UserProfile) (children : list (string * StoredUser))
    : list (string * StoredUser) :=
  List.filter (fun child => negb (String.eqb (fst child) (id cur))) children.

End Ranker.

(** ** The radial layout engine *)

Module Layout.
#[local] Open Scope R_scope.

(** [{x, y, id}] *)
Record Position := mkPosition {
  x : R;
  y : R;
  pid : string
}.

Definition MARGIN : R := 10.
Definition MAX_ITERATIONS : nat := 50.

Definition getCompatibilityRing (compatibility : Z) : nat :=
  if (90 <=? compatibility)%Z then 0%nat
  else if (80 <=? compatibility)%Z then 1%nat
  else 2%nat.

(** [ring === 0 ? 0.25 : ring === 1 ? 0.4 : 0.6] *)
Definition ringRadius (ring : nat) : R :=
  match ring with
  | O => 0.25
  | S O => 0.4
  | _ => 0.6
  end.

(** The normalized radius of a partner, as [calculateRadarPositions]
    computes it. *)
Definition radiusOf (partner : UserProfile) : R :=
  ringRadius (getCompatibilityRing (JS.orZero (smartCompatibility partner))).

(** The callback of [matchedPartners.map] in [calculateRadarPositions]. *)
Definition initialPosition (centerX centerY : R) (count : nat)
    (index : nat) (partner : UserProfile) : Position :=
  let radius := radiusOf partner in
  let angle := (INR index * 360) / INR count in
  let radian := (angle * PI) / 180 in
  {| pid := id partner;
     x := centerX + (radius * centerX) * cos radian;
     y := centerY + (radius * centerY) * sin radian |}.

Definition distance (a b : Position) : R :=
  let dx := x a - x b in
  let dy := y a - y b in
  sqrt (dx * dx + dy * dy).

(** One application of the repulsion to the points at indices [j] and [k]:
    the body of the [if (distance < MARGIN)] branch. *)
Definition repel (pj pk : Position) : Position * Position :=
  let dx := x pj - x pk in
  let dy := y pj - y pk in
  let distance := sqrt (dx * dx + dy * dy) in
  let angle := JS.atan2 dy dx in
  let force := (MARGIN - distance) / 2 in
  ({| x := x pj + cos angle * force; y := y pj + sin angle * force;
      pid := pid pj |},
   {| x := x pk - cos angle * force; y := y pk - sin angle * force;
      pid := pid pk |}).

(** The body of the inner loop at indices [j] and [k], on the array and the
    [hasCollision] flag.  The loops keep [j < k < positions.length], so both
    lookups succeed. *)
Definition visitPair (j k : nat) (st : list Position * bool)
    : list Position * bool :=
  match fst st !! j, fst st !! k with
  | Some pj, Some pk =>
      if Rlt_dec (distance pj pk) MARGIN then
        let (pj', pk') := repel pj pk in
        (<[k := pk']> (<[j := pj']> (fst st)), true)
      else st
  | _, _ => st
  end.

(** [for (let k = j + 1; k < positions.length; k++)] *)
Definition innerLoop (st : list Position * bool) (j : nat)
    : list Position * bool :=
  foldl (fun st k => visitPair j k st) st
        (seq (S j) (length (fst st) - S j)).

(** One pass: [hasCollision = false] followed by the two nested loops. *)
Definition pass (positions : list Position) : list Position * bool :=
  foldl innerLoop (positions, false) (seq 0 (length positions)).

(** The outcome of the outer loop: the array, the number of passes that
    ran, and whether the loop was left through [break]. *)
Record Outcome := mkOutcome {
  final : list Position;
  passes : nat;
  leftByBreak : bool
}.

(** [for (let i = 0; i < MAX_ITERATIONS; i++)], [remaining] counting the
    passes still allowed. *)
Fixpoint iterate (remaining : nat) (positions : list Position) : Outcome :=
  match remaining with
  | O => {| final := positions; passes := 0; leftByBreak := false |}
  | S n =>
      let (positions', hasCollision) := pass positions in
      if hasCollision then
        let r := iterate n positions' in
        {| final := final r; passes := S (passes r);
           leftByBreak := leftByBreak r |}
      else {| final := positions'; passes := 1; leftByBreak := true |}
  end.

Definition adjustPositions (positions : list Position) : list Position :=
  final (iterate MAX_ITERATIONS positions).

(** [calculateRadarPositions]; [container] holds [clientWidth] and
    [clientHeight] when [radarContainerRef.current] is set. *)
Definition calculateRadarPositions (container : option (R * R))
    (matchedPartners : list UserProfile) : list Position :=
  match container with
  | None => []
  | Some (containerWidth, containerHeight) =>
      let centerX := containerWidth / 2 in
      let centerY := containerHeight / 2 in
      adjustPositions
        (imap (initialPosition centerX centerY (length matchedPartners))
              matchedPartners)
  end.

End Layout.

(** ** Vocabulary of the statements *)

Module Terms.

(** The profile [p] with its subject list replaced. *)
Definition withSubjects (p : UserProfile) (subs : option (list string))
    : UserProfile :=
  {| id := id p; name := name p; studyField := studyField p;
     subjects := subs;
     university := university p; faculty := faculty p; city := city p;
     country := country p; yearOfStudy := yearOfStudy p;
     smartCompatibility := smartCompatibility p;
     subjectMatch := subjectMatch p;
     institutionMatch := institutionMatch p;
     locationMatch := locationMatch p |}.

(** The quotient that [subjectScore] computes: [c / m * 100]. *)
Definition ratio (c m : nat) : Q :=
  inject_Z (Z.of_nat c) / inject_Z (Z.of_nat m) * 100.

(** The total under which a match is ranked. *)
Definition rankTotal (m : UserProfile) : Z :=
  JS.orZero (smartCompatibility m).

Definition hasTotal (t : Z) (m : UserProfile) : bool :=
  (rankTotal m =? t)%Z.

(** The pair at indices [j] and [k] of the array is closer than the margin. *)
Definition collides (positions : list Layout.Position) (j k : nat) : Prop :=
  exists pj pk, positions !! j = Some pj /\ positions !! k = Some pk
                /\ (Layout.distance pj pk < Layout.MARGIN)%R.

End Terms.

(** ** Concrete inputs used in examples *)

Module Samples.
#[local] Open Scope string_scope.

Definition person (i : string) (subs : option (list string))
    (uni cty ctr : option string) (yr : option Z) : UserProfile :=
  {| id := i; name := Some i; studyField := "Mathematics";
     subjects := subs; university := uni; faculty := None;
     city := cty; country := ctr; yearOfStudy := yr;
     smartCompatibility := None; subjectMatch := None;
     institutionMatch := None; locationMatch := None |}.

(** The scenario of the specification. *)
Definition requester : UserProfile :=
  person "me" (Some ["Calculus"; "Physics"]) (Some "A") (Some "X") (Some "C1")
         (Some 2%Z).

Definition candidate : UserProfile :=
  person "c" (Some ["Calculus II"]) (Some "A") (Some "X") (Some "C1")
         (Some 2%Z).

(** A profile none of whose optional fields is present. *)
Definition bare : UserProfile := person "b" None None None None None.

(** A match that carries the total [t]. *)
Definition scored (t : Z) : UserProfile :=
  {| id := "p"; name := Some "p"; studyField := "Mathematics";
     subjects := None; university := None; faculty := None;
     city := None; country := None; yearOfStudy := None;
     smartCompatibility := Some t; subjectMatch := None;
     institutionMatch := None; locationMatch := None |}.

(** Stored users, and a pool that also holds the requester's own key. *)
Definition stored (uni : option string) : StoredUser :=
  {| s_name := Some "n"; s_studyField := "Mathematics";
     s_subjects := Some ["Physics"]; s_university := uni;
     s_faculty := None; s_city := Some "X";
     s_country := Some "C1"; s_yearOfStudy := Some 2%Z |}.

Definition pool : list (string * StoredUser) :=
  [("u1", stored None); ("me", stored (Some "A")); ("u2", stored (Some "A"));
   ("u3", stored None)].

(** Points of the radar. *)
Definition pointA : Layout.Position :=
  {| Layout.x := 0; Layout.y := 0; Layout.pid := "a" |}.
Definition pointC : Layout.Position :=
  {| Layout.x := 20; Layout.y := 0; Layout.pid := "c" |}.

End Samples.

(** ** The scan animation *)

Module Scan.
Import Ranker.

(** The pieces of component state that [startRadarScan] touches, and
    whether the interval it created is still installed. *)
Record State := mkState {
  scanProgress : Z;
  isScanning : bool;
  showMatches : bool;
  matchedPartners : list UserProfile;
  intervalActive : bool
}.

(** [startRadarScan] up to [setInterval]: nothing happens without a
    requester profile. *)
Definition begin (currentUserProfile : option UserProfile) (st : State)
    : State :=
  match currentUserProfile with
  | None => st
  | Some _ =>
      {| scanProgress := 0; isScanning := true; showMatches := false;
         matchedPartners := matchedPartners st; intervalActive := true |}
  end.

(** One firing of the interval callback, [potentialPartners] being the list
    fetched before the interval was created.  A cleared interval fires no
    more. *)
Definition tick (currentUserProfile : option UserProfile)
    (potentialPartners : list UserProfile) (st : State) : State :=
  if intervalActive st then
    if (100 <=? scanProgress st)%Z then
      {| scanProgress := 100; isScanning := false; showMatches := true;
         matchedPartners := smartMatches currentUserProfile potentialPartners;
         intervalActive := false |}
    else
      {| scanProgress := scanProgress st + 2; isScanning := isScanning st;
         showMatches := showMatches st;
         matchedPartners := matchedPartners st;
         intervalActive := intervalActive st |}
  else st.

(** The state after [n] firings. *)
Fixpoint ticks (n : nat) (currentUserProfile : option UserProfile)
    (potentialPartners : list UserProfile) (st : State) : State :=
  match n with
  | O => st
  | S m =>
      ticks m currentUserProfile potentialPartners
            (tick currentUserProfile potentialPartners st)
  end.

End Scan.

(** ** What the component renders from the matches *)

Module Render.

Definition getRingColor (ring : nat) : string :=
  match ring with
  | 0%nat => "text-success"
  | 1%nat => "text-primary"
  | 2%nat => "text-accent"
  | _ => "text-muted-foreground"
  end.

(** [matchedPartners.find(p => p.id === position.id)] *)
Definition findPartner (matchedPartners : list UserProfile)
    (position : Layout.Position) : option UserProfile :=
  List.find (fun p => String.eqb (id p) (Layout.pid position))
            matchedPartners.

(** [matchedPartners.slice(0, 4)], the cards under the radar. *)
Definition summaryList (matchedPartners : list UserProfile)
    : list UserProfile :=
  take 4 matchedPartners.

(** [s.split(sep)] for a one-character separator. *)
Fixpoint split (sep : ascii) (s : string) : list string :=
  match s with
  | EmptyString => [EmptyString]
  | String c r =>
      if Ascii.eqb c sep then EmptyString :: split sep r
      else
        match split sep r with
        | [] => [String c EmptyString]
        | w :: ws => String c w :: ws
        end
  end.

(** [n[0]]: the first character as a string, or [undefined]. *)
Definition charAt0 (n : string) : option string :=
  match n with
  | EmptyString => None
  | String c _ => Some (String c EmptyString)
  end.

(** [parts.join('')]: an [undefined] element is joined as the empty
    string. *)
Fixpoint joinEmpty (parts : list (option string)) : string :=
  match parts with
  | [] => EmptyString
  | Some w :: r => (w ++ joinEmpty r)%string
  | None :: r => joinEmpty r
  end.

(** [partner.name.split(' ').map(n => n[0]).join('')] *)
Definition initials (name : string) : string :=
  joinEmpty (map charAt0 (split " " name)).

(** [partner.name.split(' ')[0]] *)
Definition firstName (name : string) : option string :=
  head (split " " name).

(** What an expression of the markup yields for one partner: a value, or
    the [TypeError] of reading a property of [undefined]. *)
Inductive Rendered (A : Type) :=
  | Throws
  | Renders (a : A).
Arguments Throws {A}.
Arguments Renders {A} a.

(** The avatar fallback of a partner: [partner.name.split(...)] throws
    when the partner has no name. *)
Definition initialsOf (partner : UserProfile) : Rendered string :=
  match name partner with
  | None => Throws
  | Some n => Renders (initials n)
  end.

(** The label under a marker. *)
Definition firstNameOf (partner : UserProfile) : Rendered (option string) :=
  match name partner with
  | None => Throws
  | Some n => Renders (firstName n)
  end.

End Render.

(** ** The collision avoidance loop on binary64 numbers *)

Module Binary64.
Import Floats.
#[local] Open Scope float_scope.

(** [Math.atan2], [Math.cos] and [Math.sin]: the language leaves their
    results to the implementation, so they are a parameter of the model. *)
Record MathLib := mkMath {
  atan2 : float -> float -> float;
  cos : float -> float;
  sin : float -> float
}.

(** The results that ECMAScript fixes exactly and that the statements
    use: [atan2(+0, x)] is [+0] for [x > 0] and for [x = +0], [cos(+0)] is
    1 and [sin(+0)] is [+0]. *)
Definition exactCases (m : MathLib) : Prop :=
  (forall x, (0 <? x) = true -> atan2 m 0 x = 0)
  /\ atan2 m 0 0 = 0
  /\ cos m 0 = 1
  /\ sin m 0 = 0.

(** A stand-in that is right in the exact cases, which is all the examples
    on the positive x axis use. *)
Definition axisMath : MathLib :=
  {| atan2 := fun _ _ => 0; cos := fun _ => 1; sin := fun _ => 0 |}.

(** [{x, y, id}] *)
Record Position := mkPosition {
  x : float;
  y : float;
  id : string
}.

Definition MARGIN : float := 10.
Definition MAX_ITERATIONS : nat := 50.

Definition distance (a b : Position) : float :=
  let dx := x a - x b in
  let dy := y a - y b in
  sqrt (dx * dx + dy * dy).

Section Loop.
Variable Math : MathLib.

(** The body of the [if (distance < MARGIN)] branch. *)
Definition repel (pj pk : Position) : Position * Position :=
  let dx := x pj - x pk in
  let dy := y pj - y pk in
  let distance := sqrt (dx * dx + dy * dy) in
  let angle := atan2 Math dy dx in
  let force := (MARGIN - distance) / 2 in
  ({| x := x pj + cos Math angle * force;
      y := y pj + sin Math angle * force; id := id pj |},
   {| x := x pk - cos Math angle * force;
      y := y pk - sin Math angle * force; id := id pk |}).

(** The body of the inner loop; [<?] is false when an operand is [NaN],
    as [<] is in the source. *)
Definition visitPair (j k : nat) (st : list Position * bool)
    : list Position * bool :=
  match fst st !! j, fst st !! k with
  | Some pj, Some pk =>
      if distance pj pk <? MARGIN then
        let (pj', pk') := repel pj pk in
        (<[k := pk']> (<[j := pj']> (fst st)), true)
      else st
  | _, _ => st
  end.

Definition innerLoop (st : list Position * bool) (j : nat)
    : list Position * bool :=
  foldl (fun st k => visitPair j k st) st
        (seq (S j) (length (fst st) - S j)).

Definition pass (positions : list Position) : list Position * bool :=
  foldl innerLoop (positions, false) (seq 0 (length positions)).

Fixpoint iterate (remaining : nat) (positions : list Position)
    : list Position :=
  match remaining with
  | O => positions
  | S n =>
      let (positions', hasCollision) := pass positions in
      if hasCollision then iterate n positions' else positions'
  end.

Definition adjustPositions (positions : list Position) : list Position :=
  iterate MAX_ITERATIONS positions.

End Loop.

(** Two points on the x axis, the doubles nearest to 10.1 and to 0.2. *)
Definition east : Position :=
  {| x := 0x1.4333333333333p+3; y := 0; id := "e" |}.
Definition west : Position :=
  {| x := 0x1.999999999999ap-3; y := 0; id := "w" |}.

(** Where one repulsion puts them: the doubles printed as
    10.149999999999999 and 0.15000000000000019, which are
    9.9999999999999982 apart. *)
Definition eastPushed : Position :=
  {| x := 0x1.44cccccccccccp+3; y := 0; id := "e" |}.
Definition westPushed : Position :=
  {| x := 0x1.333333333333ap-3; y := 0; id := "w" |}.

(** Where a second repulsion puts [westPushed]: the double printed as
    0.1499999999999993; [eastPushed] stays where it is, the push of
    8.9e-16 being half the gap to the next double. *)
Definition westSettled : Position :=
  {| x := 0x1.333333333331ap-3; y := 0; id := "w" |}.

(** Two points at the same place, far from the origin: the doubles next
    to 1e17 are 16 apart. *)
Definition farA : Position := {| x := 1e17; y := 0; id := "a" |}.
Definition farB : Position := {| x := 1e17; y := 0; id := "b" |}.

End Binary64.

(** ** Further vocabulary *)

Module MoreTerms.
Import Layout.

(** Every two distinct entries are at least [MARGIN] apart. *)
Definition wellSeparated (positions : list Position) : Prop :=
  forall j k pj pk, j <> k ->
    positions !! j = Some pj -> positions !! k = Some pk ->
    (MARGIN <= distance pj pk)%R.

(** The positions before collision avoidance. *)
Definition initialPositions (containerWidth containerHeight : R)
    (matchedPartners : list UserProfile) : list Position :=
  imap (initialPosition (containerWidth / 2) (containerHeight / 2)
                        (length matchedPartners))
       matchedPartners.

(** The characters of a string. *)
Fixpoint chars (s : string) : list ascii :=
  match s with
  | EmptyString => []
  | String c r => c :: chars r
  end.

(** The profile [p] with every subject in lower case. *)
Definition lowerSubjects (p : UserProfile) : UserProfile :=
  Terms.withSubjects p (option_map (map Str.toLowerCase) (subjects p)).

End MoreTerms.

(** ** Further inputs used in examples *)

Module MoreSamples.
#[local] Open Scope string_scope.

(** A pool of five other users, two of them at the requester's
    university. *)
Definition pool5 : list (string * StoredUser) :=
  [("u1", Samples.stored None); ("u2", Samples.stored (Some "A"));
   ("u3", Samples.stored None); ("u4", Samples.stored None);
   ("u5", Samples.stored (Some "A"))].

(** A stored user as the onboarding form writes it: no name, no
    university, no location. *)
Definition onboarded : StoredUser :=
  {| s_name := None; s_studyField := "Mathematics";
     s_subjects := Some ["Physics"]; s_university := None;
     s_faculty := None; s_city := None; s_country := None;
     s_yearOfStudy := None |}.

(** The state of the component before any scan. *)
Definition idle : Scan.State :=
  {| Scan.scanProgress := 0; Scan.isScanning := false;
     Scan.showMatches := false; Scan.matchedPartners := [];
     Scan.intervalActive := false |}.

End MoreSamples.

Module ScorerFacts.
Import Scorer Terms Samples.

(** *** Substring search *)

Lemma prefix_spec t s :
  String.prefix t s = true <-> exists b, s = (t ++ b)%string.
Proof.
  revert s. induction t as [|c t IH]; intros s.
  - split; intros _; [exists s; reflexivity | destruct s; reflexivity].
  - destruct s as [|d s]; simpl.
    + split; [discriminate | intros [b Hb]; discriminate].
    + destruct (ascii_dec c d) as [->|Hne].
      * rewrite IH. split; intros [b Hb]; exists b; congruence.
      * split; [discriminate | intros [b Hb]; congruence].
Qed.

Lemma includes_spec s t :
  Str.includes s t = true <-> exists a b, s = (a ++ t ++ b)%string.
Proof.
  induction s as [|c r IH]; cbn [Str.includes];
    rewrite orb_true_iff, prefix_spec.
  - split.
    + intros [[b Hb]|H]; [|discriminate]. exists EmptyString, b. exact Hb.
    + intros ([|? a] & b & H); [left; exists b; exact H | discriminate].
  - rewrite IH. split.
    + intros [[b Hb]|(a & b & ->)].
      * exists EmptyString, b. exact Hb.
      * exists (String c a), b. reflexivity.
    + intros ([|d a] & b & H).
      * left. exists b. exact H.
      * right. exists a, b. simpl in H. congruence.
Qed.

(** *** Arithmetic of the scores *)

Lemma ratio_le (c m c' m' : nat) :
  (1 <= m)%nat -> (1 <= m')%nat -> (c * m' <= c' * m)%nat ->
  (ratio c m <= ratio c' m')%Q.
Proof.
  intros Hm Hm' H. unfold ratio.
  apply Qmult_le_compat_r; [|discriminate].
  apply Qle_shift_div_l.
  { change 0%Q with (inject_Z 0). rewrite <- Zlt_Qlt. lia. }
  unfold Qdiv. rewrite <- Qmult_assoc, (Qmult_comm (/ _)), Qmult_assoc.
  apply Qle_shift_div_r.
  { change 0%Q with (inject_Z 0). rewrite <- Zlt_Qlt. lia. }
  rewrite <- !inject_Z_mult, <- Zle_Qle. lia.
Qed.

Lemma ratio_nonneg (c m : nat) : (0 <= ratio c m)%Q.
Proof.
  unfold ratio. apply Qmult_le_0_compat; [|discriminate].
  destruct m as [|m].
  - unfold Qdiv. simpl. rewrite Qmult_0_r. apply Qle_refl.
  - apply Qle_shift_div_l.
    + change 0%Q with (inject_Z 0). rewrite <- Zlt_Qlt. lia.
    + rewrite Qmult_0_l. change 0%Q with (inject_Z 0). rewrite <- Zle_Qle. lia.
Qed.

Lemma ratio_le_100 (c m : nat) :
  (c <= m)%nat -> (1 <= m)%nat -> (ratio c m <= 100)%Q.
Proof.
  intros Hc Hm.
  assert (H : (ratio c m <= ratio 1 1)%Q) by (apply ratio_le; lia).
  exact H.
Qed.

Lemma mathRound_le (a b : Q) : (a <= b)%Q -> (mathRound a <= mathRound b)%Z.
Proof.
  intros H. unfold mathRound. apply Qfloor_resp_le. lra.
Qed.

Lemma subjectScore_ratio cur partner :
  subjectScore cur partner
  = ratio (length (commonSubjects cur partner))
          (Nat.max (lengthOr1 partner) (lengthOr1 cur)).
Proof. reflexivity. Qed.

Lemma lengthOr1_pos p : (1 <= lengthOr1 p)%nat.
Proof.
  unfold lengthOr1. destruct (subjects p) as [l|]; [|lia].
  destruct (length l); lia.
Qed.

Lemma common_le cur partner :
  (length (commonSubjects cur partner) <= lengthOr1 partner)%nat.
Proof.
  unfold commonSubjects, lengthOr1.
  destruct (subjects partner) as [l|]; simpl; [|lia].
  pose proof (List.filter_length_le (someOverlap cur) l).
  destruct (length l); lia.
Qed.

Lemma institution_cases cur partner :
  institutionScore cur partner = 100%Q \/ institutionScore cur partner = 60%Q.
Proof.
  unfold institutionScore.
  destruct (Str.strictEq (university partner) (university cur));
    [left | right; reflexivity].
  destruct (Str.strictEq (faculty partner) (faculty cur)); reflexivity.
Qed.

Lemma location_cases cur partner :
  locationScore cur partner = 100%Q \/ locationScore cur partner = 70%Q
  \/ locationScore cur partner = 30%Q.
Proof.
  unfold locationScore.
  destruct (Str.strictEq (city partner) (city cur)); [auto|].
  destruct (Str.strictEq (country partner) (country cur)); auto.
Qed.

Lemma yearBonus_cases cur partner :
  yearBonus cur partner = 10%Q \/ yearBonus cur partner = 0%Q.
Proof.
  unfold yearBonus.
  destruct (yearOfStudy partner) as [a|], (yearOfStudy cur) as [b|]; auto.
  destruct (Z.abs (a - b) <=? 1)%Z; auto.
Qed.

Lemma subjectScore_bounds cur partner :
  (0 <= subjectScore cur partner <= 100)%Q.
Proof.
  rewrite subjectScore_ratio. split; [apply ratio_nonneg|].
  pose proof (common_le cur partner). pose proof (lengthOr1_pos partner).
  apply ratio_le_100; lia.
Qed.

(** The raw total never exceeds 100: the weights 0.4, 0.3 and 0.2 sum to
    0.9 and the bonus adds at most 10. *)
Lemma totalScore_bounds cur partner :
  (24 <= totalScore cur partner <= 100)%Q.
Proof.
  unfold totalScore.
  pose proof (subjectScore_bounds cur partner) as [? ?].
  destruct (institution_cases cur partner) as [-> | ->],
           (location_cases cur partner) as [-> | [-> | ->]],
           (yearBonus_cases cur partner) as [-> | ->]; split; lra.
Qed.

(** C1 (as the code computes it): on the scenario of the specification the
    candidate has one overlapping subject out of [max 1 2 = 2], so the
    subject score is 50, institution and location are 100, the year bonus is
    10, and the total is [50*0.4 + 100*0.3 + 100*0.2 + 10 = 80]. *)
Theorem scenario_scores :
  let s := calculateSmartCompatibility (Some requester) candidate in
  commonSubjects requester candidate = ["Calculus II"%string]
  /\ subject s = 50%Z /\ institution s = 100%Z /\ location s = 100%Z
  /\ yearBonus requester candidate = 10%Q
  /\ total s = 80%Z.
Proof. vm_compute. repeat split; reflexivity. Qed.

(** The scenario does not score 100 / 100 / 100 / 10 / 110. *)
Lemma scenario_not_110 :
  let s := calculateSmartCompatibility (Some requester) candidate in
  ~ (subject s = 100%Z /\ institution s = 100%Z /\ location s = 100%Z
     /\ yearBonus requester candidate = 10%Q
     /\ total s = 110%Z).
Proof. vm_compute. intros [H _]. discriminate H. Qed.

Lemma mathRound_range (lo hi : Z) (q : Q) :
  (inject_Z lo <= q <= inject_Z hi)%Q -> (lo <= mathRound q <= hi)%Z.
Proof.
  intros [Hlo Hhi].
  assert (Hr : forall n, mathRound (inject_Z n) = n).
  { intros n. unfold mathRound, Qfloor, Qplus, inject_Z. simpl.
    symmetry. apply (Z.div_unique _ _ _ 1); lia. }
  pose proof (mathRound_le _ _ Hlo) as H1.
  pose proof (mathRound_le _ _ Hhi) as H2.
  rewrite Hr in H1, H2. split; assumption.
Qed.

(** C9: every sub-score lies in [0, 100] and the total in [0, 110], for the
    raw values and for the rounded values that are returned, whether or not
    the requester profile is present. *)
Theorem score_ranges
    (currentUserProfile : option UserProfile) (cur partner : UserProfile) :
  let s := calculateSmartCompatibility currentUserProfile partner in
  ((0 <= subjectScore cur partner <= 100)%Q
   /\ (0 <= institutionScore cur partner <= 100)%Q
   /\ (0 <= locationScore cur partner <= 100)%Q
   /\ (0 <= totalScore cur partner <= 110)%Q)
  /\ ((0 <= subject s <= 100)%Z /\ (0 <= institution s <= 100)%Z
      /\ (0 <= location s <= 100)%Z /\ (0 <= total s <= 110)%Z).
Proof.
  assert (Hraw : forall c,
    (0 <= subjectScore c partner <= 100)%Q
    /\ (0 <= institutionScore c partner <= 100)%Q
    /\ (0 <= locationScore c partner <= 100)%Q
    /\ (0 <= totalScore c partner <= 110)%Q).
  { intros c. split; [apply subjectScore_bounds|]. split; [|split].
    - destruct (institution_cases c partner) as [-> | ->]; split; discriminate.
    - destruct (location_cases c partner) as [-> | [-> | ->]]; split; discriminate.
    - pose proof (totalScore_bounds c partner). lra. }
  split; [apply Hraw|].
  destruct currentUserProfile as [c|]; unfold calculateSmartCompatibility;
    cbn [total subject institution location].
  - destruct (Hraw c) as (Hs & Hi & Hl & Ht).
    split; [|split; [|split]];
      first [ apply (mathRound_range 0 100); assumption
            | apply (mathRound_range 0 110); assumption ].
  - lia.
Qed.

(** C2 (as the code behaves): the scorer is a total function.  A missing
    requester profile gives the all-zero breakdown.  With a requester, an
    absent or empty subject list on either side gives subject score 0.  The
    institution score is always 60 or 100 and the location score always 30,
    70 or 100, never 0: a candidate whose institution is absent or empty
    scores 60 against a requester that has one, and a candidate whose city
    and country are absent or empty scores 30 against a requester that has
    both. *)
Theorem absent_fields (cur partner : UserProfile) :
  let s := calculateSmartCompatibility (Some cur) partner in
  calculateSmartCompatibility None partner
    = {| total := 0; subject := 0; institution := 0; location := 0 |}
  /\ (subjects partner = None \/ subjects partner = Some []
      \/ subjects cur = None \/ subjects cur = Some [] -> subject s = 0%Z)
  /\ (institution s = 60%Z \/ institution s = 100%Z)
  /\ (forall u, university cur = Some u -> u <> EmptyString ->
      university partner = None \/ university partner = Some EmptyString ->
      institution s = 60%Z)
  /\ (location s = 30%Z \/ location s = 70%Z \/ location s = 100%Z)
  /\ (forall c k, city cur = Some c -> c <> EmptyString ->
      country cur = Some k -> k <> EmptyString ->
      city partner = None \/ city partner = Some EmptyString ->
      country partner = None \/ country partner = Some EmptyString ->
      location s = 30%Z).
Proof.
  unfold calculateSmartCompatibility; cbn [total subject institution location].
  assert (Hne : forall o v, o = None \/ o = Some EmptyString ->
                  v <> EmptyString -> Str.strictEq o (Some v) = false).
  { intros o v [-> | ->] Hv; simpl; [reflexivity|].
    destruct v; [congruence | reflexivity]. }
  split; [reflexivity|]. split; [|split; [|split; [|split]]].
  - intros H.
    assert (Hc : commonSubjects cur partner = []).
    { unfold commonSubjects, someOverlap.
      destruct H as [-> | [-> | [-> | ->]]]; try reflexivity;
        destruct (subjects partner) as [l|]; try reflexivity;
        induction l as [|a l IH]; simpl; auto. }
    rewrite subjectScore_ratio, Hc. simpl length.
    unfold ratio, mathRound. unfold Qdiv. rewrite Qmult_0_l. reflexivity.
  - destruct (institution_cases cur partner) as [-> | ->]; [right|left]; reflexivity.
  - intros u Hu Hu' Hp. unfold institutionScore.
    rewrite Hu, (Hne _ _ Hp Hu'). reflexivity.
  - destruct (location_cases cur partner) as [-> | [-> | ->]]; auto.
  - intros c k Hc Hc' Hk Hk' Hpc Hpk. unfold locationScore.
    rewrite Hc, Hk, (Hne _ _ Hpc Hc'), (Hne _ _ Hpk Hk'). reflexivity.
Qed.

Lemma absent_fields_witness :
  let s := calculateSmartCompatibility (Some requester) bare in
  subject s = 0%Z /\ institution s = 60%Z /\ location s = 30%Z.
Proof.
  destruct (absent_fields requester bare) as (_ & Hs & _ & Hi & _ & Hl).
  split; [apply Hs; left; reflexivity|].
  split.
  - apply (Hi "A"%string); [reflexivity | discriminate | left; reflexivity].
  - apply (Hl "X"%string "C1"%string);
      [reflexivity | discriminate | reflexivity | discriminate
      | left; reflexivity | left; reflexivity].
Defined.

(** The claim of C2 that every absent field contributes zero fails for the
    institution and the location. *)
Lemma absent_fields_not_zero :
  ~ (forall cur partner : UserProfile,
       let s := calculateSmartCompatibility (Some cur) partner in
       (university partner = None -> institution s = 0%Z)
       /\ (city partner = None -> country partner = None -> location s = 0%Z)).
Proof.
  intros H. destruct (H requester bare) as [Hi _].
  specialize (Hi eq_refl). vm_compute in Hi. discriminate Hi.
Qed.

Lemma someOverlap_intro cur s u us :
  subjects cur = Some us -> In u us ->
  Str.includes (Str.toLowerCase u) (Str.toLowerCase s) = true
  \/ Str.includes (Str.toLowerCase s) (Str.toLowerCase u) = true ->
  someOverlap cur s = true.
Proof.
  intros Hus Hin H. unfold someOverlap. rewrite Hus.
  apply existsb_exists. exists u. split; [exact Hin|].
  unfold subjectsOverlap. apply orb_true_iff. exact H.
Qed.

Lemma filter_insert_length {A} (f : A -> bool) l1 l2 a :
  f a = true ->
  length (List.filter f (l1 ++ a :: l2)) = S (length (List.filter f (l1 ++ l2))).
Proof.
  intros Ha. rewrite !List.filter_app, !length_app. simpl. rewrite Ha. simpl. lia.
Qed.

(** C8: inserting into the candidate's subject list, at any place, one
    subject that overlaps a requester subject (one lower-cased string
    contains the other) does not decrease the subject score, raw or
    rounded.  An absent subject list counts as the empty one. *)
Theorem subject_monotone (cur partner : UserProfile)
    (l1 l2 us : list string) (s u : string) :
  default [] (subjects partner) = l1 ++ l2 ->
  subjects cur = Some us -> In u us ->
  Str.includes (Str.toLowerCase u) (Str.toLowerCase s) = true
  \/ Str.includes (Str.toLowerCase s) (Str.toLowerCase u) = true ->
  let partner' := withSubjects partner (Some (l1 ++ s :: l2)) in
  (subjectScore cur partner <= subjectScore cur partner')%Q
  /\ (subject (calculateSmartCompatibility (Some cur) partner)
      <= subject (calculateSmartCompatibility (Some cur) partner'))%Z.
Proof.
  intros Hl Hus Hin Hinc partner'.
  pose proof (someOverlap_intro cur s u us Hus Hin Hinc) as Hov.
  assert (Hq : (subjectScore cur partner <= subjectScore cur partner')%Q).
  { rewrite !subjectScore_ratio.
    pose proof (lengthOr1_pos cur) as Hc1.
    pose proof (lengthOr1_pos partner) as Hp1.
    assert (Hc' : length (commonSubjects cur partner')
                  = S (length (List.filter (someOverlap cur) (l1 ++ l2)))).
    { unfold commonSubjects, partner'. simpl. apply filter_insert_length, Hov. }
    assert (Hn' : lengthOr1 partner' = S (length (l1 ++ l2))).
    { unfold lengthOr1, partner'. simpl. rewrite !length_app. simpl.
      replace (length l1 + S (length l2))%nat with (S (length l1 + length l2)) by lia.
      reflexivity. }
    assert (Hc : length (commonSubjects cur partner)
                 = length (List.filter (someOverlap cur) (l1 ++ l2))
                 \/ (length (commonSubjects cur partner) = 0%nat)).
    { unfold commonSubjects. destruct (subjects partner) as [l|]; simpl in Hl.
      - left. rewrite Hl. reflexivity.
      - right. reflexivity. }
    assert (Hn : (length (l1 ++ l2) <= lengthOr1 partner)%nat).
    { unfold lengthOr1. destruct (subjects partner) as [l|]; simpl in Hl.
      - rewrite Hl. destruct (length (l1 ++ l2)); lia.
      - rewrite <- Hl. simpl. lia. }
    assert (Hn2 : (lengthOr1 partner <= Nat.max 1 (length (l1 ++ l2)))%nat).
    { unfold lengthOr1. destruct (subjects partner) as [l|]; simpl in Hl.
      - rewrite Hl. destruct (length (l1 ++ l2)); lia.
      - lia. }
    pose proof (List.filter_length_le (someOverlap cur) (l1 ++ l2)) as Hf.
    rewrite Hc', Hn'.
    apply ratio_le; [lia | lia |].
    destruct Hc as [-> | ->]; [|lia].
    set (c := length (List.filter (someOverlap cur) (l1 ++ l2))) in *.
    set (n := length (l1 ++ l2)) in *.
    set (p := lengthOr1 partner) in *. set (q := lengthOr1 cur) in *.
    clearbody c n p q.
    destruct (Nat.max_spec (S n) q) as [[? ->] | [? ->]];
      destruct (Nat.max_spec p q) as [[? ->] | [? ->]]; nia. }
  split; [exact Hq|].
  unfold calculateSmartCompatibility; cbn [subject].
  apply mathRound_le, Hq.
Qed.

Lemma subject_monotone_witness :
  let partner' := withSubjects candidate
                    (Some ["Calculus II"; "Physics 101"])%string in
  (subjectScore requester candidate
   <= subjectScore requester partner')%Q
  /\ (subject (calculateSmartCompatibility (Some requester) candidate)
      <= subject (calculateSmartCompatibility (Some requester) partner'))%Z.
Proof.
  apply (subject_monotone requester candidate
           ["Calculus II"%string] [] ["Calculus"; "Physics"]%string
           "Physics 101"%string "Physics"%string).
  - reflexivity.
  - reflexivity.
  - right. left. reflexivity.
  - right. vm_compute. reflexivity.
Defined.

End ScorerFacts.

Module RankerFacts.
Import Scorer Ranker Terms Samples.

(** *** The model of [Array.prototype.sort] *)

Section SortFacts.
Context {A : Type} (compareFn : A -> A -> Z).

Lemma insertSorted_length a l :
  length (JS.insertSorted compareFn a l) = S (length l).
Proof.
  induction l as [|b r IH]; simpl; [reflexivity|].
  destruct (compareFn a b <=? 0)%Z; simpl; [reflexivity | rewrite IH; reflexivity].
Qed.

Lemma sort_length l : length (JS.sort compareFn l) = length l.
Proof.
  induction l as [|a r IH]; simpl; [reflexivity|].
  rewrite insertSorted_length, IH. reflexivity.
Qed.

Lemma insertSorted_In a l c :
  In c (JS.insertSorted compareFn a l) <-> c = a \/ In c l.
Proof.
  induction l as [|b r IH]; simpl.
  - split; intros [H|H]; auto.
  - destruct (compareFn a b <=? 0)%Z; simpl.
    + split; intros [H|H]; auto.
    + rewrite IH. split; intros H; intuition auto.
Qed.

Lemma sort_In l c : In c (JS.sort compareFn l) <-> In c l.
Proof.
  induction l as [|a r IH]; simpl; [reflexivity|].
  rewrite insertSorted_In, IH. split; intros [H|H]; auto.
Qed.

(** An element that belongs to the class [P] is inserted in front of
    every member of the class that is already there, provided that
    members of one class compare as equal. *)
Lemma insertSorted_filter (P : A -> bool) a l :
  (forall b, P a = true -> P b = true -> (compareFn a b <= 0)%Z) ->
  List.filter P (JS.insertSorted compareFn a l)
  = if P a then a :: List.filter P l else List.filter P l.
Proof.
  intros Heq. induction l as [|b r IH]; simpl.
  - destruct (P a); reflexivity.
  - destruct (compareFn a b <=? 0)%Z eqn:Hab; simpl.
    + destruct (P a), (P b); reflexivity.
    + rewrite IH. destruct (P a) eqn:Ha, (P b) eqn:Hb; try reflexivity.
      apply Z.leb_gt in Hab. specialize (Heq b eq_refl Hb). lia.
Qed.

Lemma sort_filter (P : A -> bool) l :
  (forall a b, P a = true -> P b = true -> (compareFn a b <= 0)%Z) ->
  List.filter P (JS.sort compareFn l) = List.filter P l.
Proof.
  intros Heq. induction l as [|a r IH]; simpl; [reflexivity|].
  rewrite insertSorted_filter by (intros b; apply Heq).
  rewrite IH. reflexivity.
Qed.

Hypothesis compare_total :
  forall a b, (compareFn a b <= 0)%Z \/ (compareFn b a <= 0)%Z.
Hypothesis compare_trans :
  forall a b c, (compareFn a b <= 0 -> compareFn b c <= 0 -> compareFn a c <= 0)%Z.

Lemma insertSorted_sorted a l :
  StronglySorted (fun x y => (compareFn x y <= 0)%Z) l ->
  StronglySorted (fun x y => (compareFn x y <= 0)%Z)
                 (JS.insertSorted compareFn a l).
Proof.
  induction 1 as [|b r Hr IH Hb]; simpl.
  - constructor; constructor.
  - destruct (compareFn a b <=? 0)%Z eqn:Hab.
    + apply Z.leb_le in Hab. constructor; [constructor; assumption|].
      constructor; [exact Hab|].
      eapply List.Forall_impl; [|exact Hb]. intros c Hc. simpl in Hc. eauto.
    + apply Z.leb_gt in Hab. constructor; [exact IH|].
      apply List.Forall_forall. intros c Hc.
      apply insertSorted_In in Hc as [-> | Hc].
      * destruct (compare_total a b); [lia | assumption].
      * rewrite List.Forall_forall in Hb. auto.
Qed.

Lemma sort_sorted l :
  StronglySorted (fun x y => (compareFn x y <= 0)%Z) (JS.sort compareFn l).
Proof.
  induction l as [|a r IH]; simpl; [constructor | apply insertSorted_sorted, IH].
Qed.
End SortFacts.

(** *** The pipeline *)

Lemma fetch_spec cur children :
  fetchPotentialPartners (Some cur) (Snapshot children)
  = map (fun child => profileOf (fst child) (snd child))
        (poolMinusRequester cur children).
Proof.
  unfold fetchPotentialPartners, poolMinusRequester.
  destruct children as [|c0 children0]; [reflexivity|].
  set (children := c0 :: children0). clearbody children.
  set (f := fun (partners : list UserProfile) (child : string * StoredUser) =>
              if negb (String.eqb (fst child) (id cur))
              then partners ++ [profileOf (fst child) (snd child)]
              else partners).
  assert (H : forall acc,
    foldl f acc children
    = acc ++ map (fun child => profileOf (fst child) (snd child))
               (List.filter (fun child => negb (String.eqb (fst child) (id cur)))
                            children)).
  { induction children as [|c r IH]; intros acc; simpl.
    - rewrite app_nil_r. reflexivity.
    - rewrite IH. unfold f.
      destruct (negb (String.eqb (fst c) (id cur))); simpl.
      + rewrite <- app_assoc. reflexivity.
      + reflexivity. }
  apply (H []).
Qed.

Lemma fetch_excludes_self cur result p :
  In p (fetchPotentialPartners (Some cur) result) -> id p <> id cur.
Proof.
  destruct result as [|children]; [intros []|].
  rewrite fetch_spec. intros H.
  apply in_map_iff in H as ([key user] & <- & H).
  apply List.filter_In in H as [_ H]. simpl in *.
  apply negb_true_iff, String.eqb_neq in H. exact H.
Qed.

Lemma take_In {A} (n : nat) (l : list A) a : In a (take n l) -> In a l.
Proof.
  intros H. rewrite <- (take_drop n l). apply in_or_app. left. exact H.
Qed.

Lemma filter_take_prefix {A} (P : A -> bool) (n : nat) (l : list A) :
  List.filter P (take n l) `prefix_of` List.filter P l.
Proof.
  exists (List.filter P (drop n l)).
  rewrite <- List.filter_app, take_drop. reflexivity.
Qed.

Lemma sorted_take {A} (R : A -> A -> Prop) (n : nat) (l : list A) :
  StronglySorted R l -> StronglySorted R (take n l).
Proof.
  intros H. revert n. induction H as [|a l Hl IH Ha]; intros [|n]; simpl;
    try constructor; [apply IH|].
  apply List.Forall_forall. intros b Hb. apply take_In in Hb.
  rewrite List.Forall_forall in Ha. auto.
Qed.

Lemma smartMatches_In cur partners m :
  In m (smartMatches cur partners) ->
  exists p, In p partners /\ m = withCompatibility cur p.
Proof.
  unfold smartMatches. intros H.
  apply take_In, sort_In, in_map_iff in H as (p & <- & Hp). eauto.
Qed.

Lemma byCompatibility_le a b :
  (byCompatibility a b <= 0)%Z <-> (rankTotal b <= rankTotal a)%Z.
Proof. unfold byCompatibility, rankTotal. lia. Qed.

(** C4: after a scan no ranked match carries the requester's identifier,
    whatever the query returned, and in particular when the snapshot holds
    a child under the requester's own key. *)
Theorem self_excluded
    (cur : UserProfile) (result : QueryResult) (previous : list UserProfile) :
  Forall (fun m => id m <> id cur) (startRadarScan (Some cur) result previous).
Proof.
  apply List.Forall_forall. intros m Hm. unfold startRadarScan in Hm.
  apply smartMatches_In in Hm as (p & Hp & ->).
  simpl. eapply fetch_excludes_self, Hp.
Qed.

(** C5 (as the code behaves): the ranked list holds [min 6 n] matches, [n]
    being the size of the pool without the requester; the bound 6 is the
    constant of [slice(0, 6)]. *)
Theorem ranked_length
    (cur : UserProfile) (children : list (string * StoredUser))
    (previous : list UserProfile) :
  length (startRadarScan (Some cur) (Snapshot children) previous)
  = Nat.min 6 (length (poolMinusRequester cur children))
  /\ length (startRadarScan (Some cur) QueryFailed previous) = 0%nat.
Proof.
  split; [|reflexivity].
  unfold startRadarScan, smartMatches.
  rewrite length_take, sort_length, length_map, fetch_spec, length_map.
  reflexivity.
Qed.

(** No caller-chosen limit bounds the ranked list: with the limit 2 and a
    pool of three other users the list has three entries. *)
Lemma ranked_length_not_limit :
  ~ (forall (limit : nat) (cur : UserProfile)
            (children : list (string * StoredUser)) (previous : list UserProfile),
       length (startRadarScan (Some cur) (Snapshot children) previous)
       = Nat.min limit (length (poolMinusRequester cur children))).
Proof.
  intros H. specialize (H 2%nat requester pool []).
  vm_compute in H. discriminate H.
Qed.

(** The sample pool, which holds the requester's own key: the requester is
    dropped, the best total comes first, and the two users with equal
    totals keep their pool order. *)
Example ranked_pool :
  map (fun m => (id m, smartCompatibility m))
      (startRadarScan (Some requester) (Snapshot pool) [])
  = [("u2", Some 80); ("u1", Some 68); ("u3", Some 68)]%string%Z.
Proof. vm_compute. reflexivity. Qed.

(** C6: the ranked list is in descending order of the total, every entry
    is a pool member with its total attached, and for each value of the
    total the entries with that total form a prefix of the pool members
    with that total, in pool order. *)
Theorem ranked_sorted_stable
    (cur : UserProfile) (result : QueryResult) (previous : list UserProfile) :
  let scored := map (withCompatibility (Some cur))
                    (fetchPotentialPartners (Some cur) result) in
  let ranked := startRadarScan (Some cur) result previous in
  StronglySorted (fun a b => (rankTotal b <= rankTotal a)%Z) ranked
  /\ Forall (fun m => exists p,
               In p (fetchPotentialPartners (Some cur) result)
               /\ m = withCompatibility (Some cur) p
               /\ rankTotal m = total (calculateSmartCompatibility (Some cur) p))
            ranked
  /\ forall t : Z,
       List.filter (hasTotal t) ranked `prefix_of` List.filter (hasTotal t) scored.
Proof.
  intros scored ranked. unfold ranked, startRadarScan, smartMatches.
  fold scored. split; [|split].
  - assert (Hs : StronglySorted (fun a b => (byCompatibility a b <= 0)%Z)
                   (JS.sort byCompatibility scored)).
    { apply sort_sorted; unfold byCompatibility; intros; lia. }
    apply (sorted_take _ 6) in Hs.
    clear -Hs. induction Hs as [|a l Hl IH Ha]; constructor; [exact IH|].
    eapply List.Forall_impl; [|exact Ha].
    intros b Hb. apply byCompatibility_le, Hb.
  - apply List.Forall_forall. intros m Hm.
    apply take_In, sort_In, in_map_iff in Hm as (p & <- & Hp).
    exists p. repeat split. exact Hp.
  - intros t. etransitivity; [apply filter_take_prefix|].
    rewrite sort_filter; [reflexivity|].
    intros a b Ha Hb. unfold hasTotal in Ha, Hb.
    apply Z.eqb_eq in Ha, Hb. apply byCompatibility_le. lia.
Qed.

End RankerFacts.

Module LayoutFacts.
Import Layout Terms Samples.
#[local] Open Scope R_scope.

(** C7: the ring and the normalized radius are functions of the total alone. *)
Theorem ring_assignment (partner : UserProfile) (t : Z) :
  JS.orZero (smartCompatibility partner) = t ->
  ((90 <= t)%Z -> getCompatibilityRing t = 0%nat /\ radiusOf partner = 0.25)
  /\ ((80 <= t <= 89)%Z -> getCompatibilityRing t = 1%nat /\ radiusOf partner = 0.4)
  /\ ((t < 80)%Z -> getCompatibilityRing t = 2%nat /\ radiusOf partner = 0.6)
  /\ ringRadius (getCompatibilityRing 95) = 0.25
  /\ ringRadius (getCompatibilityRing 82) = 0.4.
Proof.
  intros Ht. unfold radiusOf. rewrite Ht. unfold getCompatibilityRing.
  repeat split; intros;
    repeat match goal with
           | |- context [(?a <=? ?b)%Z] => destruct (Z.leb_spec a b); try lia
           end; reflexivity.
Qed.

Lemma ring_assignment_witness :
  getCompatibilityRing 95 = 0%nat
  /\ getCompatibilityRing 82 = 1%nat
  /\ getCompatibilityRing 24 = 2%nat.
Proof.
  split; [|split].
  - apply (ring_assignment (scored 95) 95 eq_refl).
    lia.
  - apply (ring_assignment (scored 82) 82 eq_refl).
    lia.
  - apply (ring_assignment (scored 24) 24 eq_refl).
    lia.
Defined.

(** *** Distances *)

Lemma distance_sym (a b : Position) : distance a b = distance b a.
Proof. unfold distance. f_equal. ring. Qed.

Lemma distance_nonneg (a b : Position) : 0 <= distance a b.
Proof. apply sqrt_pos. Qed.

(** *** What a pass leaves untouched *)

Lemma map_insert_same {A B} (f : A -> B) (l : list A) (i : nat) (a b : A) :
  l !! i = Some a -> f b = f a -> map f (<[i:=b]> l) = map f l.
Proof.
  revert i. induction l as [|c l IH]; intros [|i] Hl Hf; simpl in *;
    try discriminate.
  - injection Hl as ->. rewrite Hf. reflexivity.
  - f_equal. apply IH; assumption.
Qed.

Lemma visitPair_shape (j k : nat) (st : list Position * bool) :
  length (fst (visitPair j k st)) = length (fst st)
  /\ map pid (fst (visitPair j k st)) = map pid (fst st).
Proof.
  unfold visitPair.
  destruct (fst st !! j) as [pj|] eqn:Hj; [|auto].
  destruct (fst st !! k) as [pk|] eqn:Hk; [|auto].
  destruct (Rlt_dec (distance pj pk) MARGIN); [|auto].
  assert (Hid : pid (fst (repel pj pk)) = pid pj
                /\ pid (snd (repel pj pk)) = pid pk) by (split; reflexivity).
  destruct (repel pj pk) as [pj' pk']. cbn [fst snd] in Hid |- *.
  destruct Hid as [Hidj Hidk].
  rewrite !length_insert. split; [reflexivity|].
  transitivity (map pid (<[j:=pj']> (fst st))).
  - destruct (decide (j = k)) as [->|Hjk].
    + apply (map_insert_same pid _ k pj').
      * apply list_lookup_insert_eq. apply lookup_lt_Some in Hj. exact Hj.
      * congruence.
    + apply (map_insert_same pid _ k pk); [|exact Hidk].
      rewrite list_lookup_insert_ne by exact Hjk. exact Hk.
  - apply (map_insert_same pid _ j pj); [exact Hj | exact Hidj].
Qed.

Lemma foldl_shape {I} (f : list Position * bool -> I -> list Position * bool)
    (items : list I) (st : list Position * bool) :
  (forall st i, length (fst (f st i)) = length (fst st)
                /\ map pid (fst (f st i)) = map pid (fst st)) ->
  length (fst (foldl f st items)) = length (fst st)
  /\ map pid (fst (foldl f st items)) = map pid (fst st).
Proof.
  intros Hf. revert st. induction items as [|i items IH]; intros st; simpl; [auto|].
  destruct (IH (f st i)) as [-> ->]. apply Hf.
Qed.

Lemma innerLoop_shape (st : list Position * bool) (j : nat) :
  length (fst (innerLoop st j)) = length (fst st)
  /\ map pid (fst (innerLoop st j)) = map pid (fst st).
Proof.
  unfold innerLoop. apply foldl_shape. intros st' k. apply visitPair_shape.
Qed.

Lemma pass_shape (positions : list Position) :
  length (fst (pass positions)) = length positions
  /\ map pid (fst (pass positions)) = map pid positions.
Proof.
  unfold pass.
  apply (foldl_shape innerLoop _ (positions, false)), innerLoop_shape.
Qed.

Lemma iterate_shape (n : nat) (positions : list Position) :
  length (final (iterate n positions)) = length positions
  /\ map pid (final (iterate n positions)) = map pid positions.
Proof.
  revert positions. induction n as [|n IH]; intros positions; simpl; [auto|].
  pose proof (pass_shape positions) as [Hl Hp].
  destruct (pass positions) as [positions' hasCollision]. simpl in Hl, Hp.
  destruct hasCollision; simpl.
  - destruct (IH positions') as [-> ->]. auto.
  - auto.
Qed.


(** Inside the loops both array reads succeed. *)
Lemma visitPair_in_range (j k : nat) (st : list Position * bool) :
  (j < k < length (fst st))%nat ->
  exists pj pk, fst st !! j = Some pj /\ fst st !! k = Some pk.
Proof.
  intros [Hj Hk].
  destruct (lookup_lt_is_Some_2 (fst st) j) as [pj Hpj]; [lia|].
  destruct (lookup_lt_is_Some_2 (fst st) k) as [pk Hpk]; [lia|].
  eauto.
Qed.

(** *** A pass without collision *)

Lemma visitPair_quiet (j k : nat) (st : list Position * bool) :
  snd (visitPair j k st) = false ->
  visitPair j k st = st /\ ~ collides (fst st) j k.
Proof.
  unfold visitPair, collides.
  destruct (fst st !! j) as [pj|] eqn:Hj;
    [|intros _; split; [reflexivity | intros (? & ? & ? & _); discriminate]].
  destruct (fst st !! k) as [pk|] eqn:Hk;
    [|intros _; split; [reflexivity | intros (? & ? & _ & ? & _); discriminate]].
  destruct (Rlt_dec (distance pj pk) MARGIN) as [Hd|Hd].
  - destruct (repel pj pk). simpl. discriminate.
  - intros _. split; [reflexivity|].
    intros (pj' & pk' & Hj' & Hk' & Hd'). congruence.
Qed.

Lemma foldl_quiet {I} (f : list Position * bool -> I -> list Position * bool)
    (Q : list Position -> I -> Prop) (items : list I)
    (st : list Position * bool) :
  (forall st i, snd (f st i) = false -> f st i = st /\ Q (fst st) i) ->
  snd (foldl f st items) = false ->
  foldl f st items = st /\ Forall (Q (fst st)) items.
Proof.
  intros Hf. revert st. induction items as [|i items IH]; intros st H; simpl in *.
  - split; [reflexivity | constructor].
  - destruct (IH _ H) as [He Hall].
    rewrite He in H. destruct (Hf _ _ H) as [Hst Hq].
    rewrite He, Hst in *. split; [reflexivity|].
    constructor; assumption.
Qed.

Lemma innerLoop_quiet (st : list Position * bool) (j : nat) :
  snd (innerLoop st j) = false ->
  innerLoop st j = st
  /\ forall k, (j < k < length (fst st))%nat -> ~ collides (fst st) j k.
Proof.
  intros H. unfold innerLoop in *.
  apply (foldl_quiet (fun st k => visitPair j k st)
                     (fun ps k => ~ collides ps j k)) in H as [He Hall].
  - split; [exact He|]. intros k Hk.
    rewrite List.Forall_forall in Hall. apply Hall.
    apply list_elem_of_In, elem_of_seq. lia.
  - intros st' k. apply visitPair_quiet.
Qed.

Lemma pass_quiet (positions positions' : list Position) :
  pass positions = (positions', false) ->
  positions' = positions
  /\ forall j k, (j < k < length positions)%nat -> ~ collides positions j k.
Proof.
  intros Hp. unfold pass in Hp.
  assert (H : snd (foldl innerLoop (positions, false)
                         (seq 0 (length positions))) = false)
    by (rewrite Hp; reflexivity).
  apply (foldl_quiet innerLoop
           (fun ps j => forall k, (j < k < length ps)%nat -> ~ collides ps j k))
    in H as [He Hall].
  - rewrite He in Hp. split; [congruence|].
    intros j k Hjk. simpl in Hall. rewrite List.Forall_forall in Hall.
    apply (Hall j); [|exact Hjk].
    apply list_elem_of_In, elem_of_seq. lia.
  - intros st j. apply innerLoop_quiet.
Qed.

Lemma quiet_apart (positions : list Position) :
  (forall j k, (j < k < length positions)%nat -> ~ collides positions j k) ->
  forall j k pj pk, j <> k ->
    positions !! j = Some pj -> positions !! k = Some pk ->
    MARGIN <= distance pj pk.
Proof.
  intros Hq j k pj pk Hjk Hj Hk.
  pose proof (lookup_lt_Some _ _ _ Hj). pose proof (lookup_lt_Some _ _ _ Hk).
  apply Rnot_lt_le. intros Hd.
  destruct (Nat.lt_total j k) as [Hlt | [Heq | Hgt]]; [|contradiction|].
  - apply (Hq j k); [lia|]. exists pj, pk. auto.
  - apply (Hq k j); [lia|]. exists pk, pj.
    rewrite distance_sym. auto.
Qed.

Lemma iterate_outcome (n : nat) (positions : list Position) :
  let r := iterate n positions in
  (leftByBreak r = true ->
     forall j k pj pk, j <> k ->
       final r !! j = Some pj -> final r !! k = Some pk ->
       MARGIN <= distance pj pk)
  /\ (leftByBreak r = false -> passes r = n)
  /\ (passes r <= n)%nat.
Proof.
  revert positions. induction n as [|n IH]; intros positions; simpl.
  - split; [discriminate | split; [reflexivity | lia]].
  - destruct (pass positions) as [positions' hasCollision] eqn:Hp.
    destruct hasCollision; simpl.
    + destruct (IH positions') as (Hb & Hn & Hle).
      split; [exact Hb | split; [intros H; rewrite (Hn H); reflexivity | lia]].
    + apply pass_quiet in Hp as [-> Hq].
      split; [intros _; apply quiet_apart, Hq | split; [discriminate | lia]].
Qed.

(** C3: when [adjustPositions] returns, every two distinct entries of the
    returned list are at least [MARGIN] apart, or the loop ran all its
    [MAX_ITERATIONS] passes; the loop leaves through [break] only with all
    pairs at least [MARGIN] apart, and otherwise runs all passes. *)
Theorem no_collision_or_exhausted (positions : list Position) :
  let r := iterate MAX_ITERATIONS positions in
  adjustPositions positions = final r
  /\ (leftByBreak r = true ->
        forall j k pj pk, j <> k ->
          final r !! j = Some pj -> final r !! k = Some pk ->
          MARGIN <= distance pj pk)
  /\ (leftByBreak r = false -> passes r = MAX_ITERATIONS)
  /\ (forall j k pj pk, j <> k ->
        final r !! j = Some pj -> final r !! k = Some pk ->
        MARGIN <= distance pj pk \/ passes r = MAX_ITERATIONS).
Proof.
  intros r. destruct (iterate_outcome MAX_ITERATIONS positions) as (Hb & Hn & _).
  fold r in Hb, Hn.
  split; [reflexivity|]. split; [exact Hb|]. split; [exact Hn|].
  intros j k pj pk Hjk Hj Hk.
  destruct (leftByBreak r) eqn:Hl.
  - left. eapply Hb; eauto.
  - right. apply Hn. reflexivity.
Qed.

Lemma distance_A_C : distance pointA pointC = 20.
Proof.
  unfold distance, pointA, pointC. cbn [x y].
  apply sqrt_lem_1; lra.
Qed.

Lemma pass_A_C : pass [pointA; pointC] = ([pointA; pointC], false).
Proof.
  unfold pass. cbn [length seq foldl]. unfold innerLoop.
  cbn [fst length Nat.sub seq foldl]. unfold visitPair.
  cbn [fst lookup list_lookup].
  destruct (Rlt_dec (distance pointA pointC) MARGIN) as [H|H]; [|reflexivity].
  rewrite distance_A_C in H. unfold MARGIN in H. lra.
Qed.

Lemma iterate_quiet (n : nat) (positions : list Position) :
  pass positions = (positions, false) ->
  iterate (S n) positions
  = {| final := positions; passes := 1; leftByBreak := true |}.
Proof. intros H. simpl. rewrite H. reflexivity. Qed.

Lemma iterate_A_C :
  iterate MAX_ITERATIONS [pointA; pointC]
  = {| final := [pointA; pointC]; passes := 1; leftByBreak := true |}.
Proof. apply (iterate_quiet 49), pass_A_C. Qed.

Lemma no_collision_or_exhausted_witness :
  MARGIN <= distance pointA pointC.
Proof.
  destruct (no_collision_or_exhausted [pointA; pointC]) as (_ & Hb & _).
  rewrite iterate_A_C in Hb.
  apply (Hb eq_refl 0%nat 1%nat); [discriminate | reflexivity | reflexivity].
Defined.

End LayoutFacts.

(** ** Further properties of the scorer *)

Module ScorerMore.
Import Scorer Terms MoreTerms Samples ScorerFacts.

Lemma strictEq_refl o : Str.strictEq o o = true.
Proof. destruct o as [s|]; simpl; [apply String.eqb_refl | reflexivity]. Qed.

Lemma strictEq_sym a b : Str.strictEq a b = Str.strictEq b a.
Proof.
  destruct a as [s|], b as [t|]; simpl; try reflexivity. apply String.eqb_sym.
Qed.

Lemma mathRound_Z (n : Z) : mathRound (inject_Z n) = n.
Proof.
  unfold mathRound, Qfloor, Qplus, inject_Z. simpl.
  symmetry. apply (Z.div_unique _ _ _ 1); lia.
Qed.

Lemma mathRound_lower (q : Q) (n : Z) :
  (n <= mathRound q)%Z -> (inject_Z n - (1 # 2) <= q)%Q.
Proof.
  unfold mathRound. intros H.
  pose proof (Qfloor_le (q + (1 # 2))) as Hf.
  rewrite Zle_Qle in H. lra.
Qed.

(** X1: with a requester profile the rounded total is between 24 and 100:
    the year bonus never lifts a total above 100, and the flat credits for
    institution and location keep it from falling below 24. *)
Theorem total_between_24_and_100 (cur partner : UserProfile) :
  (24 <= total (calculateSmartCompatibility (Some cur) partner) <= 100)%Z.
Proof.
  unfold calculateSmartCompatibility; cbn [total].
  apply mathRound_range. exact (totalScore_bounds cur partner).
Qed.

(** X2: a total of 90 or more, the inner ring, is reached only by a
    candidate of the same university, in the same city or country, and with
    a subject score of at least 73.75. *)
Theorem inner_ring_needs (cur partner : UserProfile) :
  (90 <= total (calculateSmartCompatibility (Some cur) partner))%Z ->
  Str.strictEq (university partner) (university cur) = true
  /\ (Str.strictEq (city partner) (city cur) = true
      \/ Str.strictEq (country partner) (country cur) = true)
  /\ (73.75 <= subjectScore cur partner)%Q.
Proof.
  unfold calculateSmartCompatibility; cbn [total]. intros H.
  apply mathRound_lower in H. change (inject_Z 90) with 90%Q in H.
  unfold totalScore in H.
  pose proof (subjectScore_bounds cur partner) as [Hs0 Hs1].
  pose proof (yearBonus_cases cur partner) as Hb.
  unfold institutionScore, locationScore in H.
  destruct (Str.strictEq (university partner) (university cur)).
  - split; [reflexivity|].
    assert (Hi : ((if Str.strictEq (faculty partner) (faculty cur)
                   then 100 else 100) == 100)%Q)
      by (destruct (Str.strictEq (faculty partner) (faculty cur)); reflexivity).
    rewrite Hi in H.
    destruct (Str.strictEq (city partner) (city cur)).
    + split; [left; reflexivity|]. destruct Hb as [Hb|Hb]; rewrite Hb in H; lra.
    + destruct (Str.strictEq (country partner) (country cur)).
      * split; [right; reflexivity|]. destruct Hb as [Hb|Hb]; rewrite Hb in H; lra.
      * exfalso. destruct Hb as [Hb|Hb]; rewrite Hb in H; lra.
  - exfalso. destruct (Str.strictEq (city partner) (city cur));
      [|destruct (Str.strictEq (country partner) (country cur))];
      destruct Hb as [Hb|Hb]; rewrite Hb in H; lra.
Qed.


Lemma includes_self s : Str.includes s s = true.
Proof. apply includes_spec. exists EmptyString, EmptyString.
  simpl. induction s as [|c s IH]; simpl; [reflexivity | congruence].
Qed.

Lemma includes_empty s : Str.includes s EmptyString = true.
Proof. destruct s; reflexivity. Qed.

Lemma filter_all {A} (f : A -> bool) (l : list A) :
  length (List.filter f l) = length l <-> Forall (fun a => f a = true) l.
Proof.
  induction l as [|a l IH]; simpl.
  - split; [constructor | reflexivity].
  - pose proof (List.filter_length_le f l) as Hle.
    destruct (f a) eqn:Ha; simpl.
    + split.
      * intros H. constructor; [exact Ha | apply IH; lia].
      * intros H. inversion H; subst. f_equal. apply IH. assumption.
    + split; [lia|]. intros H. inversion H; subst. congruence.
Qed.

Lemma ratio_100 (c m : nat) :
  (1 <= m)%nat -> (ratio c m == 100)%Q <-> c = m.
Proof.
  intros Hm. unfold ratio, Qeq, Qdiv, Qmult, Qinv, inject_Z.
  destruct (Z.of_nat m) as [|p|p] eqn:Hp; try lia.
  cbn [Qnum Qden]. split; intros H.
  - assert (Z.of_nat c = Z.pos p) by lia. lia.
  - assert (Z.of_nat c = Z.pos p) by lia. lia.
Qed.

Lemma inner_ring_needs_witness :
  Str.strictEq (university requester) (university requester) = true.
Proof.
  apply (inner_ring_needs requester requester).
  assert (Ht : total (calculateSmartCompatibility (Some requester) requester)
               = 100%Z) by (vm_compute; reflexivity).
  rewrite Ht. lia.
Defined.

Lemma subjectScore_full_iff (cur partner : UserProfile) :
  (subjectScore cur partner == 100)%Q <->
  exists ps, subjects partner = Some ps /\ ps <> []
             /\ Forall (fun s => someOverlap cur s = true) ps
             /\ (lengthOr1 cur <= length ps)%nat.
Proof.
  rewrite subjectScore_ratio.
  pose proof (lengthOr1_pos cur) as Hq. pose proof (lengthOr1_pos partner) as Hp.
  rewrite ratio_100 by lia.
  unfold commonSubjects, lengthOr1 at 1. unfold lengthOr1 in Hp.
  destruct (subjects partner) as [ps|].
  - pose proof (List.filter_length_le (someOverlap cur) ps) as Hle.
    pose proof (filter_all (someOverlap cur) ps) as Hfa.
    set (c := length (List.filter (someOverlap cur) ps)) in *. clearbody c.
    destruct ps as [|p ps]; cbn [length] in *.
    + split; [lia|]. intros (ps' & Heq & Hne & _). injection Heq as <-.
      congruence.
    + split.
      * intros H. exists (p :: ps). split; [reflexivity|].
        split; [discriminate|].
        split; [apply Hfa; lia | cbn [length]; lia].
      * intros (ps' & Heq & _ & Hall & Hlen). injection Heq as <-.
        apply Hfa in Hall. cbn [length] in *. lia.
  - split; [cbn [length]; lia|]. intros (ps & Heq & _). discriminate.
Qed.

(** X3: the raw subject score is 100 exactly when the candidate lists at
    least one subject, every subject of the candidate overlaps a requester
    subject, and the candidate lists at least as many subjects as the
    requester. *)
Theorem full_subject_score (cur partner : UserProfile) :
  (subjectScore cur partner == 100)%Q <->
  exists ps, subjects partner = Some ps /\ ps <> []
             /\ Forall (fun s => someOverlap cur s = true) ps
             /\ (lengthOr1 cur <= length ps)%nat.
Proof. apply subjectScore_full_iff. Qed.

Lemma full_subject_score_witness :
  (subjectScore requester requester == 100)%Q.
Proof.
  apply (full_subject_score requester requester).
  exists ["Calculus"; "Physics"]%string.
  split; [reflexivity|]. split; [discriminate|]. split.
  - repeat constructor.
  - vm_compute. lia.
Defined.

(** X4: a candidate that has the requester's subject list (not empty),
    university and city, and a year of study within one of the requester's,
    gets 100 in every score and in the total. *)
Theorem perfect_match (cur partner : UserProfile) (l : list string) (a b : Z) :
  subjects cur = Some l -> l <> [] -> subjects partner = Some l ->
  university partner = university cur -> city partner = city cur ->
  yearOfStudy partner = Some a -> yearOfStudy cur = Some b ->
  (Z.abs (a - b) <= 1)%Z ->
  calculateSmartCompatibility (Some cur) partner
  = {| total := 100; subject := 100; institution := 100; location := 100 |}.
Proof.
  intros Hl Hne Hpl Hu Hc Ha Hb Hab.
  assert (Hs : (subjectScore cur partner == 100)%Q).
  { apply subjectScore_full_iff. exists l. split; [exact Hpl|]. split; [exact Hne|].
    split.
    - apply List.Forall_forall. intros s Hs. unfold someOverlap. rewrite Hl.
      apply existsb_exists. exists s. split; [exact Hs|].
      unfold subjectsOverlap. rewrite includes_self. reflexivity.
    - unfold lengthOr1. rewrite Hl. destruct l; [congruence | simpl; lia]. }
  assert (Hi : institutionScore cur partner = 100%Q).
  { unfold institutionScore. rewrite Hu, strictEq_refl.
    destruct (Str.strictEq (faculty partner) (faculty cur)); reflexivity. }
  assert (Hlo : locationScore cur partner = 100%Q).
  { unfold locationScore. rewrite Hc, strictEq_refl. reflexivity. }
  assert (Hy : yearBonus cur partner = 10%Q).
  { unfold yearBonus. rewrite Ha, Hb.
    destruct (Z.leb_spec (Z.abs (a - b)) 1); [reflexivity | lia]. }
  assert (Ht : (totalScore cur partner == 100)%Q).
  { unfold totalScore. rewrite Hi, Hlo, Hy, Hs. reflexivity. }
  unfold calculateSmartCompatibility. rewrite Hi, Hlo.
  assert (Hr : forall q, (q == 100)%Q -> mathRound q = 100%Z).
  { intros q Hq. unfold mathRound. rewrite Hq. reflexivity. }
  rewrite (Hr _ Hs), (Hr _ Ht). reflexivity.
Qed.

Lemma perfect_match_witness :
  calculateSmartCompatibility (Some requester) requester
  = {| total := 100; subject := 100; institution := 100; location := 100 |}.
Proof.
  apply (perfect_match requester requester ["Calculus"; "Physics"]%string 2 2);
    try reflexivity; [discriminate | simpl; lia].
Defined.

(** X5: a field that both profiles lack counts as equal: without a
    university on either side the institution score is 100, and without a
    city on either side the location score is 100. *)
Theorem both_absent_equal (cur partner : UserProfile) :
  let s := calculateSmartCompatibility (Some cur) partner in
  (university partner = None -> university cur = None -> institution s = 100%Z)
  /\ (city partner = None -> city cur = None -> location s = 100%Z).
Proof.
  unfold calculateSmartCompatibility; cbn [institution location]. split.
  - intros Hp Hc. unfold institutionScore. rewrite Hp, Hc. simpl.
    destruct (Str.strictEq (faculty partner) (faculty cur)); reflexivity.
  - intros Hp Hc. unfold locationScore. rewrite Hp, Hc. reflexivity.
Qed.

Lemma both_absent_equal_witness :
  institution (calculateSmartCompatibility (Some bare) bare) = 100%Z
  /\ location (calculateSmartCompatibility (Some bare) bare) = 100%Z.
Proof.
  destruct (both_absent_equal bare bare) as [Hi Hl].
  split; [exact (Hi eq_refl eq_refl) | exact (Hl eq_refl eq_refl)].
Defined.

(** X6: the institution score, the location score and the year bonus are
    the same in both directions; when the two directions also count the
    same number of common subjects, they return the same four scores. *)
Theorem symmetric_components (a b : UserProfile) :
  institutionScore a b = institutionScore b a
  /\ locationScore a b = locationScore b a
  /\ yearBonus a b = yearBonus b a
  /\ (length (commonSubjects a b) = length (commonSubjects b a) ->
      calculateSmartCompatibility (Some a) b
      = calculateSmartCompatibility (Some b) a).
Proof.
  assert (Hi : institutionScore a b = institutionScore b a).
  { unfold institutionScore.
    rewrite (strictEq_sym (university b)), (strictEq_sym (faculty b)).
    reflexivity. }
  assert (Hl : locationScore a b = locationScore b a).
  { unfold locationScore.
    rewrite (strictEq_sym (city b)), (strictEq_sym (country b)). reflexivity. }
  assert (Hy : yearBonus a b = yearBonus b a).
  { unfold yearBonus.
    destruct (yearOfStudy a) as [m|], (yearOfStudy b) as [n|]; try reflexivity.
    replace (Z.abs (n - m)) with (Z.abs (m - n)) by lia. reflexivity. }
  repeat split; try assumption.
  intros Hc.
  assert (Hs : subjectScore a b = subjectScore b a).
  { unfold subjectScore. rewrite Hc, (Nat.max_comm (lengthOr1 b)).
    reflexivity. }
  unfold calculateSmartCompatibility, totalScore.
  rewrite Hi, Hl, Hy, Hs. reflexivity.
Qed.

Lemma symmetric_components_witness :
  calculateSmartCompatibility (Some requester) candidate
  = calculateSmartCompatibility (Some candidate) requester.
Proof.
  apply (symmetric_components requester candidate). reflexivity.
Defined.

(** X7: inserting into the candidate's subject list a subject that overlaps
    no requester subject never raises the subject score, raw or rounded. *)
Theorem stray_subject_never_helps (cur partner : UserProfile)
    (l1 l2 : list string) (s : string) :
  default [] (subjects partner) = l1 ++ l2 ->
  someOverlap cur s = false ->
  let partner' := withSubjects partner (Some (l1 ++ s :: l2)) in
  (subjectScore cur partner' <= subjectScore cur partner)%Q
  /\ (subject (calculateSmartCompatibility (Some cur) partner')
      <= subject (calculateSmartCompatibility (Some cur) partner))%Z.
Proof.
  intros Hl Hov partner'.
  assert (Hq : (subjectScore cur partner' <= subjectScore cur partner)%Q).
  { rewrite !subjectScore_ratio.
    pose proof (lengthOr1_pos cur) as Hc1.
    pose proof (lengthOr1_pos partner) as Hp1.
    assert (Hc' : length (commonSubjects cur partner')
                  = length (List.filter (someOverlap cur) (l1 ++ l2))).
    { unfold commonSubjects, partner'. simpl.
      rewrite !List.filter_app. simpl. rewrite Hov. reflexivity. }
    assert (Hn' : lengthOr1 partner' = S (length (l1 ++ l2))).
    { unfold lengthOr1, partner'. simpl. rewrite !length_app. simpl.
      replace (length l1 + S (length l2))%nat
        with (S (length l1 + length l2)) by lia.
      reflexivity. }
    assert (Hc : (length (commonSubjects cur partner)
                  = length (List.filter (someOverlap cur) (l1 ++ l2)))).
    { unfold commonSubjects. destruct (subjects partner) as [l|]; simpl in Hl.
      - rewrite Hl. reflexivity.
      - rewrite <- Hl. reflexivity. }
    assert (Hn : (lengthOr1 partner <= S (length (l1 ++ l2)))%nat).
    { unfold lengthOr1. destruct (subjects partner) as [l|]; simpl in Hl.
      - rewrite Hl. destruct (length (l1 ++ l2)); lia.
      - lia. }
    rewrite Hc', Hn', Hc.
    apply ratio_le; [lia | lia |].
    apply Nat.mul_le_mono_l. lia. }
  split; [exact Hq|].
  unfold calculateSmartCompatibility; cbn [subject].
  apply mathRound_le, Hq.
Qed.

Lemma stray_subject_never_helps_witness :
  (subjectScore requester
     (withSubjects candidate (Some ["Calculus II"; "History"]%string))
   <= subjectScore requester candidate)%Q.
Proof.
  apply (stray_subject_never_helps requester candidate
           ["Calculus II"%string] [] "History"%string); reflexivity.
Defined.

(** X8: the empty string overlaps every subject.  A candidate subject that
    is the empty string is counted as common as soon as the requester lists
    any subject, and a requester that lists the empty string makes every
    subject of every candidate common. *)
Theorem empty_subject_overlaps_all (cur partner : UserProfile)
    (us : list string) :
  subjects cur = Some us ->
  (us <> [] -> someOverlap cur EmptyString = true)
  /\ (In EmptyString us ->
      commonSubjects cur partner = default [] (subjects partner)).
Proof.
  intros Hus. split.
  - intros Hne. unfold someOverlap. rewrite Hus.
    destruct us as [|u us]; [congruence|]. simpl.
    unfold subjectsOverlap at 1. simpl Str.toLowerCase at 2.
    rewrite includes_empty. reflexivity.
  - intros Hin. unfold commonSubjects.
    destruct (subjects partner) as [ps|]; [|reflexivity]. simpl.
    assert (Hall : forall s, someOverlap cur s = true).
    { intros s. unfold someOverlap. rewrite Hus. apply existsb_exists.
      exists EmptyString. split; [exact Hin|].
      unfold subjectsOverlap. simpl Str.toLowerCase at 3.
      rewrite includes_empty. apply orb_true_r. }
    induction ps as [|p ps IH]; simpl; [reflexivity|].
    rewrite Hall, IH. reflexivity.
Qed.

Lemma empty_subject_overlaps_all_witness :
  someOverlap requester EmptyString = true.
Proof.
  apply (empty_subject_overlaps_all requester candidate
           ["Calculus"; "Physics"]%string eq_refl).
  discriminate.
Defined.

Lemma lowerChar_idem c : Str.lowerChar (Str.lowerChar c) = Str.lowerChar c.
Proof. destruct c as [[] [] [] [] [] [] [] []]; reflexivity. Qed.

Lemma toLowerCase_idem s :
  Str.toLowerCase (Str.toLowerCase s) = Str.toLowerCase s.
Proof.
  induction s as [|c s IH]; simpl; [reflexivity|].
  rewrite lowerChar_idem, IH. reflexivity.
Qed.

Lemma someOverlap_lower_subject cur s :
  someOverlap cur (Str.toLowerCase s) = someOverlap cur s.
Proof.
  unfold someOverlap. destruct (subjects cur) as [us|]; [|reflexivity].
  induction us as [|u us IH]; simpl; [reflexivity|].
  rewrite IH. unfold subjectsOverlap. rewrite toLowerCase_idem. reflexivity.
Qed.

Lemma someOverlap_lower_requester cur s :
  someOverlap (lowerSubjects cur) s = someOverlap cur s.
Proof.
  unfold someOverlap, lowerSubjects. simpl.
  destruct (subjects cur) as [us|]; [|reflexivity]. simpl.
  induction us as [|u us IH]; simpl; [reflexivity|].
  rewrite IH. unfold subjectsOverlap. rewrite toLowerCase_idem. reflexivity.
Qed.

(** X9: scoring is blind to letter case: putting every subject of the
    requester and of the candidate in lower case beforehand changes none of
    the scores. *)
Theorem case_blind (cur partner : UserProfile) :
  calculateSmartCompatibility (Some (lowerSubjects cur)) (lowerSubjects partner)
  = calculateSmartCompatibility (Some cur) partner.
Proof.
  assert (Hlen : forall p, lengthOr1 (lowerSubjects p) = lengthOr1 p).
  { intros p. unfold lengthOr1, lowerSubjects. simpl.
    destruct (subjects p) as [l|]; [|reflexivity]. simpl.
    rewrite length_map. reflexivity. }
  assert (Hc : length (commonSubjects (lowerSubjects cur) (lowerSubjects partner))
               = length (commonSubjects cur partner)).
  { assert (Hf : forall l,
      length (List.filter (someOverlap (lowerSubjects cur))
                          (map Str.toLowerCase l))
      = length (List.filter (someOverlap cur) l)).
    { induction l as [|a l IH]; cbn [map List.filter]; [reflexivity|].
      rewrite someOverlap_lower_requester, someOverlap_lower_subject.
      destruct (someOverlap cur a); cbn [length]; rewrite IH; reflexivity. }
    unfold commonSubjects.
    change (subjects (lowerSubjects partner))
      with (option_map (map Str.toLowerCase) (subjects partner)).
    destruct (subjects partner) as [l|]; [apply Hf | reflexivity]. }
  assert (Hs : subjectScore (lowerSubjects cur) (lowerSubjects partner)
               = subjectScore cur partner).
  { unfold subjectScore. rewrite Hc, !Hlen. reflexivity. }
  unfold calculateSmartCompatibility, totalScore. rewrite Hs. reflexivity.
Qed.

End ScorerMore.

(** ** Further properties of the ranker *)

Module RankerMore.
Import Scorer Ranker Terms MoreTerms Samples ScorerFacts RankerFacts.

Lemma insertSorted_perm {A} (compareFn : A -> A -> Z) a l :
  Permutation (JS.insertSorted compareFn a l) (a :: l).
Proof.
  induction l as [|b r IH]; simpl; [reflexivity|].
  destruct (compareFn a b <=? 0)%Z; [reflexivity|].
  rewrite IH. apply perm_swap.
Qed.

Lemma sort_perm {A} (compareFn : A -> A -> Z) l :
  Permutation (JS.sort compareFn l) l.
Proof.
  induction l as [|a r IH]; simpl; [reflexivity|].
  rewrite insertSorted_perm, IH. reflexivity.
Qed.

Lemma sorted_app_cross {A} (R : A -> A -> Prop) (l1 l2 : list A) :
  StronglySorted R (l1 ++ l2) ->
  forall a b, In a l1 -> In b l2 -> R a b.
Proof.
  induction l1 as [|c l1 IH]; simpl; intros Hs a b Ha Hb; [contradiction|].
  inversion Hs as [|? ? Hs' Hall]; subst.
  destruct Ha as [<- | Ha].
  - rewrite List.Forall_forall in Hall. apply Hall, in_or_app. right. exact Hb.
  - eapply IH; eauto.
Qed.

Lemma scored_sorted cur partners :
  StronglySorted (fun a b => (rankTotal b <= rankTotal a)%Z)
    (JS.sort byCompatibility (map (withCompatibility cur) partners)).
Proof.
  assert (Hs : StronglySorted (fun a b => (byCompatibility a b <= 0)%Z)
                 (JS.sort byCompatibility (map (withCompatibility cur) partners))).
  { apply sort_sorted; unfold byCompatibility; intros; lia. }
  induction Hs as [|a l Hl IH Ha]; constructor; [exact IH|].
  eapply List.Forall_impl; [|exact Ha].
  intros b Hb. apply byCompatibility_le, Hb.
Qed.

(** X10: [fetchPotentialPartners] returns the children of the snapshot
    other than the requester's own, in database order, each under its key;
    it returns nothing without a requester profile or when the query fails,
    and it returns every child when the requester's key is not among
    them. *)
Theorem partners_are_the_other_children
    (cur : UserProfile) (children : list (string * StoredUser))
    (result : QueryResult) :
  fetchPotentialPartners None result = []
  /\ fetchPotentialPartners (Some cur) QueryFailed = []
  /\ map id (fetchPotentialPartners (Some cur) (Snapshot children))
     = List.filter (fun key => negb (String.eqb key (id cur)))
                   (map fst children)
  /\ (~ In (id cur) (map fst children) ->
      fetchPotentialPartners (Some cur) (Snapshot children)
      = map (fun child => profileOf (fst child) (snd child)) children).
Proof.
  split; [reflexivity|]. split; [reflexivity|].
  rewrite fetch_spec. unfold poolMinusRequester. split.
  - induction children as [|[key user] r IH]; simpl; [reflexivity|].
    destruct (negb (String.eqb key (id cur))); simpl; rewrite IH; reflexivity.
  - intros Hnot. f_equal.
    induction children as [|[key user] r IH]; simpl in *; [reflexivity|].
    destruct (String.eqb_spec key (id cur)) as [->|Hne]; simpl.
    + exfalso. apply Hnot. left. reflexivity.
    + f_equal. apply IH. intros H. apply Hnot. right. exact H.
Qed.

Lemma partners_are_the_other_children_witness :
  fetchPotentialPartners (Some requester)
    (Snapshot [("u1", stored None); ("u2", stored None)]%string)
  = [profileOf "u1" (stored None); profileOf "u2" (stored None)].
Proof.
  apply (partners_are_the_other_children requester
           [("u1", stored None); ("u2", stored None)]%string QueryFailed).
  simpl. intros [H | [H | []]]; discriminate H.
Defined.

(** X11: the six ranked matches are the best of the pool.  The scored pool
    is a permutation of the ranked list followed by the candidates that
    were cut, no cut candidate has a higher total than a ranked one, and
    nothing is cut from a pool of at most six. *)
Theorem ranked_are_the_best
    (cur : UserProfile) (result : QueryResult) (previous : list UserProfile) :
  let scored := map (withCompatibility (Some cur))
                    (fetchPotentialPartners (Some cur) result) in
  let ranked := startRadarScan (Some cur) result previous in
  exists cut,
    Permutation scored (ranked ++ cut)
    /\ (forall a b, In a ranked -> In b cut -> (rankTotal b <= rankTotal a)%Z)
    /\ ((length scored <= 6)%nat -> cut = []).
Proof.
  intros scored ranked. unfold ranked, startRadarScan, smartMatches.
  fold scored.
  exists (drop 6 (JS.sort byCompatibility scored)).
  split; [|split].
  - rewrite take_drop. symmetry. apply sort_perm.
  - apply sorted_app_cross. rewrite take_drop. apply scored_sorted.
  - intros Hlen. apply drop_ge. rewrite sort_length. exact Hlen.
Qed.

Lemma ranked_are_the_best_witness :
  exists cut,
    Permutation
      (map (withCompatibility (Some requester))
           (fetchPotentialPartners (Some requester) (Snapshot pool)))
      (startRadarScan (Some requester) (Snapshot pool) [] ++ cut)
    /\ cut = [].
Proof.
  destruct (ranked_are_the_best requester (Snapshot pool) [])
    as (cut & Hp & _ & Hc).
  exists cut. split; [exact Hp|]. apply Hc. vm_compute. lia.
Defined.


Lemma filter_keys_sublist (f : string -> bool)
    (children : list (string * StoredUser)) :
  map fst (List.filter (fun child => f (fst child)) children)
  `sublist_of` map fst children.
Proof.
  induction children as [|[key user] r IH]; simpl; [constructor|].
  destruct (f key); simpl; [apply sublist_skip | apply sublist_cons]; exact IH.
Qed.

(** X12: when the keys of the snapshot are pairwise distinct, so are the
    identifiers of the ranked matches. *)
Theorem ranked_ids_distinct
    (cur : UserProfile) (children : list (string * StoredUser))
    (previous : list UserProfile) :
  NoDup (map fst children) ->
  NoDup (map id (startRadarScan (Some cur) (Snapshot children) previous)).
Proof.
  intros Hnd. unfold startRadarScan, smartMatches.
  rewrite <- List.firstn_map.
  refine (sublist_NoDup _ _ _ (sublist_take _ 6)).
  assert (Hp : Permutation
            (map id (JS.sort byCompatibility
                       (map (withCompatibility (Some cur))
                            (fetchPotentialPartners (Some cur)
                                                    (Snapshot children)))))
            (map fst (poolMinusRequester cur children))).
  { rewrite sort_perm, fetch_spec, !List.map_map. simpl. reflexivity. }
  rewrite Hp. refine (sublist_NoDup _ _ Hnd _).
  apply (filter_keys_sublist (fun key => negb (String.eqb key (id cur)))).
Qed.

Lemma ranked_ids_distinct_witness :
  NoDup (map id (startRadarScan (Some requester) (Snapshot pool) [])).
Proof.
  apply ranked_ids_distinct. unfold pool. simpl.
  repeat (apply NoDup_cons; split;
          [rewrite ?elem_of_cons, elem_of_nil; intuition discriminate|]).
  apply NoDup_nil. exact I.
Defined.

(** X13: every ranked match carries all four scores, and the scores are in
    range: the total between 24 and 100, the subject score between 0 and
    100, the institution score 60 or 100, the location score 30, 70 or
    100.  The fallback [|| 0] of the comparator and of the ring lookup is
    never taken for a ranked match. *)
Theorem ranked_carry_scores
    (cur : UserProfile) (result : QueryResult) (previous : list UserProfile) :
  Forall (fun m =>
            exists t s i l,
              smartCompatibility m = Some t /\ (24 <= t <= 100)%Z
              /\ subjectMatch m = Some s /\ (0 <= s <= 100)%Z
              /\ institutionMatch m = Some i /\ (i = 60 \/ i = 100)%Z
              /\ locationMatch m = Some l /\ (l = 30 \/ l = 70 \/ l = 100)%Z)
         (startRadarScan (Some cur) result previous).
Proof.
  apply List.Forall_forall. intros m Hm. unfold startRadarScan in Hm.
  apply smartMatches_In in Hm as (p & _ & ->).
  pose proof (subjectScore_bounds cur p) as Hs.
  pose proof (totalScore_bounds cur p) as Ht.
  eexists _, _, _, _.
  unfold withCompatibility, calculateSmartCompatibility.
  cbn [smartCompatibility subjectMatch institutionMatch locationMatch
       total subject institution location].
  split; [reflexivity|]. split; [apply (mathRound_range 24 100), Ht|].
  split; [reflexivity|]. split; [apply (mathRound_range 0 100), Hs|].
  split; [reflexivity|]. split.
  { destruct (institution_cases cur p) as [-> | ->]; [right|left]; reflexivity. }
  split; [reflexivity|].
  destruct (location_cases cur p) as [-> | [-> | ->]]; auto.
Qed.

End RankerMore.

(** ** The scan animation and the rendered lists *)

Module RenderFacts.
Import Scorer Ranker Layout Scan Render Terms MoreTerms Samples.
Import ScorerFacts RankerFacts RankerMore LayoutFacts.

Lemma ticks_add (n m : nat) cur pp st :
  ticks (n + m) cur pp st = ticks m cur pp (ticks n cur pp st).
Proof.
  revert st. induction n as [|n IH]; intros st; simpl; [reflexivity|].
  apply IH.
Qed.

Lemma ticks_running (n : nat) cur pp st :
  intervalActive st = true -> (scanProgress st + 2 * Z.of_nat n <= 100)%Z ->
  ticks n cur pp st
  = {| scanProgress := scanProgress st + 2 * Z.of_nat n;
       isScanning := isScanning st; showMatches := showMatches st;
       matchedPartners := matchedPartners st; intervalActive := true |}.
Proof.
  revert st. induction n as [|n IH]; intros st Ha Hle.
  - simpl. destruct st; simpl in *. subst. f_equal. lia.
  - assert (Ht : tick cur pp st
                 = {| scanProgress := scanProgress st + 2;
                      isScanning := isScanning st;
                      showMatches := showMatches st;
                      matchedPartners := matchedPartners st;
                      intervalActive := true |}).
    { unfold tick. rewrite Ha.
      destruct (Z.leb_spec 100 (scanProgress st)); [lia | reflexivity]. }
    cbn [ticks]. rewrite Ht, IH; cbn [scanProgress isScanning showMatches
                                         matchedPartners intervalActive].
    + f_equal. lia.
    + reflexivity.
    + lia.
Qed.

Lemma ticks_stopped (n : nat) cur pp st :
  intervalActive st = false -> ticks n cur pp st = st.
Proof.
  intros Ha. induction n as [|n IH]; simpl; [reflexivity|].
  unfold tick at 1. rewrite Ha. exact IH.
Qed.

(** X14: a scan started with a requester profile shows the progress [2 n]
    after [n <= 50] firings of the interval, still scanning and with the
    matches hidden and unchanged; from the 51st firing on the progress is
    100, the scan is over, the interval is cleared and the matches shown
    are the ranking of [startRadarScan].  The progress never exceeds 100. *)
Theorem scan_runs_51_ticks
    (cur : UserProfile) (result : QueryResult) (st : State) (n : nat) :
  let after := ticks n (Some cur) (fetchPotentialPartners (Some cur) result)
                     (begin (Some cur) st) in
  ((n <= 50)%nat ->
     scanProgress after = (2 * Z.of_nat n)%Z /\ isScanning after = true
     /\ showMatches after = false
     /\ matchedPartners after = matchedPartners st)
  /\ ((51 <= n)%nat ->
        scanProgress after = 100%Z /\ isScanning after = false
        /\ showMatches after = true /\ intervalActive after = false
        /\ matchedPartners after
           = startRadarScan (Some cur) result (matchedPartners st))
  /\ (0 <= scanProgress after <= 100)%Z.
Proof.
  intros after.
  assert (Hrun : forall k, (k <= 50)%nat ->
            ticks k (Some cur) (fetchPotentialPartners (Some cur) result)
                  (begin (Some cur) st)
            = {| scanProgress := 2 * Z.of_nat k; isScanning := true;
                 showMatches := false; matchedPartners := matchedPartners st;
                 intervalActive := true |}).
  { intros k Hk. rewrite ticks_running; [reflexivity | reflexivity |].
    cbn [begin scanProgress]. lia. }
  assert (Hend : forall k, (51 <= k)%nat ->
            ticks k (Some cur) (fetchPotentialPartners (Some cur) result)
                  (begin (Some cur) st)
            = {| scanProgress := 100; isScanning := false;
                 showMatches := true;
                 matchedPartners :=
                   startRadarScan (Some cur) result (matchedPartners st);
                 intervalActive := false |}).
  { intros k Hk. replace k with (50 + (1 + (k - 51)))%nat by lia.
    rewrite !ticks_add, (Hrun 50%nat) by lia.
    rewrite ticks_stopped; reflexivity. }
  split; [|split].
  - intros Hn. unfold after. rewrite (Hrun n Hn). auto.
  - intros Hn. unfold after. rewrite (Hend n Hn). auto 6.
  - destruct (le_lt_dec n 50) as [Hn|Hn]; unfold after.
    + rewrite (Hrun n Hn). cbn [scanProgress]. lia.
    + rewrite (Hend n) by lia. cbn [scanProgress]. lia.
Qed.

Lemma scan_runs_51_ticks_witness :
  scanProgress
    (ticks 7 (Some requester)
           (fetchPotentialPartners (Some requester) (Snapshot pool))
           (begin (Some requester) MoreSamples.idle))
  = 14%Z.
Proof.
  apply (scan_runs_51_ticks requester (Snapshot pool) MoreSamples.idle 7).
  lia.
Defined.


(** X15: the summary cards are the first [min 4 n] entries of the ranking,
    [n] being the size of the pool without the requester, and no ranked
    match left off the cards has a higher total than a match on a card. *)
Theorem summary_is_top_four
    (cur : UserProfile) (children : list (string * StoredUser))
    (previous : list UserProfile) :
  let ranked := startRadarScan (Some cur) (Snapshot children) previous in
  length (summaryList ranked)
  = Nat.min 4 (length (poolMinusRequester cur children))
  /\ ranked = summaryList ranked ++ drop 4 ranked
  /\ forall a b, In a (summaryList ranked) -> In b (drop 4 ranked) ->
                 (rankTotal b <= rankTotal a)%Z.
Proof.
  intros ranked. split; [|split].
  - unfold summaryList, ranked, startRadarScan, smartMatches.
    rewrite !length_take, sort_length, length_map, fetch_spec, length_map.
    lia.
  - unfold summaryList. symmetry. apply take_drop.
  - unfold summaryList. apply sorted_app_cross. rewrite take_drop.
    unfold ranked, startRadarScan, smartMatches.
    apply sorted_take, scored_sorted.
Qed.

Lemma summary_is_top_four_witness :
  (rankTotal (withCompatibility (Some requester) (profileOf "u4" (stored None)))
   <= rankTotal (withCompatibility (Some requester)
                   (profileOf "u2" (stored (Some "A"%string)))))%Z.
Proof.
  apply (summary_is_top_four requester MoreSamples.pool5 []).
  - vm_compute. left. reflexivity.
  - vm_compute. left. reflexivity.
Defined.

Lemma find_by_id (ms : list UserProfile) (i : nat) (p : UserProfile) :
  NoDup (map id ms) -> ms !! i = Some p ->
  List.find (fun q => String.eqb (id q) (id p)) ms = Some p.
Proof.
  revert i. induction ms as [|q ms IH]; intros i Hnd Hi; [discriminate|].
  simpl in Hnd. apply NoDup_cons in Hnd as [Hq Hnd].
  destruct i as [|i]; simpl in *.
  - injection Hi as ->. rewrite String.eqb_refl. reflexivity.
  - destruct (String.eqb_spec (id q) (id p)) as [He|_].
    + exfalso. apply Hq. rewrite He.
      apply list_elem_of_In, in_map, list_elem_of_In.
      eapply list_elem_of_lookup_2, Hi.
    + eapply IH; eauto.
Qed.

Lemma find_some_id (ms : list UserProfile) (i : nat) (p : UserProfile) :
  ms !! i = Some p ->
  exists q, List.find (fun q => String.eqb (id q) (id p)) ms = Some q
            /\ id q = id p.
Proof.
  revert i. induction ms as [|r ms IH]; intros i Hi; [discriminate|].
  simpl. destruct (String.eqb_spec (id r) (id p)) as [He|Hne].
  - exists r. auto.
  - destruct i as [|i]; simpl in Hi; [congruence|]. eapply IH, Hi.
Qed.

Lemma imap_ids {A} (f : nat -> A -> Position) (g : A -> string) (l : list A) :
  (forall i a, pid (f i a) = g a) -> map pid (imap f l) = map g l.
Proof.
  revert f. induction l as [|a l IH]; intros f Hf; simpl; [reflexivity|].
  rewrite Hf. f_equal. apply IH. intros i b. apply Hf.
Qed.

Lemma radar_ids (w h : R) (ms : list UserProfile) :
  map pid (calculateRadarPositions (Some (w, h)) ms) = map id ms.
Proof.
  unfold calculateRadarPositions, adjustPositions.
  destruct (iterate_shape MAX_ITERATIONS
              (imap (initialPosition (w / 2) (h / 2) (length ms)) ms))
    as [_ ->].
  apply imap_ids. reflexivity.
Qed.

Lemma map_lookup_id {A} (f : A -> string) (l : list A) (i : nat) :
  map f l !! i = option_map f (l !! i).
Proof.
  revert i. induction l as [|a l IH]; intros [|i]; simpl; auto.
Qed.

(** X16: without a container nothing is drawn; otherwise there is one
    marker per match, in the order of the matches, each under the
    identifier of its match.  Every marker finds a match with its
    identifier, so no marker is dropped by the lookup, and when the
    identifiers are pairwise distinct the marker at index [i] finds the
    match at index [i]. *)
Theorem every_marker_finds_its_match
    (w h : R) (ms : list UserProfile) (i : nat) (position : Position) :
  let positions := calculateRadarPositions (Some (w, h)) ms in
  calculateRadarPositions None ms = []
  /\ length positions = length ms
  /\ map pid positions = map id ms
  /\ (positions !! i = Some position ->
      (exists p, findPartner ms position = Some p /\ id p = pid position)
      /\ (NoDup (map id ms) ->
          exists p, ms !! i = Some p /\ findPartner ms position = Some p)).
Proof.
  intros positions. pose proof (radar_ids w h ms) as Hids. fold positions in Hids.
  split; [reflexivity|].
  split; [rewrite <- (length_map pid), Hids, length_map; reflexivity|].
  split; [exact Hids|].
  intros Hi.
  assert (Hp : exists p, ms !! i = Some p /\ id p = pid position).
  { pose proof (map_lookup_id pid positions i) as H1.
    pose proof (map_lookup_id id ms i) as H2.
    rewrite Hids, H2, Hi in H1. simpl in H1.
    destruct (ms !! i) as [p|]; [|discriminate].
    exists p. split; [reflexivity|]. simpl in H1. congruence. }
  destruct Hp as (p & Hp & Hid). unfold findPartner. rewrite <- Hid. split.
  - apply (find_some_id ms i p Hp).
  - intros Hnd. exists p. split; [exact Hp|]. apply (find_by_id ms i p Hnd Hp).
Qed.


Lemma every_marker_finds_its_match_witness :
  exists p,
    findPartner [scored 95]
      (initialPosition (100 / 2) (100 / 2) 1 0 (scored 95)) = Some p
    /\ id p = "p"%string.
Proof.
  destruct (every_marker_finds_its_match 100 100 [scored 95] 0
              (initialPosition (100 / 2) (100 / 2) 1 0 (scored 95)))
    as (_ & _ & _ & H).
  destruct (H eq_refl) as [(p & Hp & Hid) _].
  exists p. split; [exact Hp | exact Hid].
Defined.

(** *** Names *)

Lemma split_nonempty sep s : split sep s <> [].
Proof.
  destruct s as [|c r]; simpl; [discriminate|].
  destruct (Ascii.eqb c sep); [discriminate|].
  destruct (split sep r); discriminate.
Qed.

Lemma split_pieces_clean sep s :
  Forall (fun w => ~ In sep (chars w)) (split sep s).
Proof.
  induction s as [|c r IH]; simpl.
  - constructor; [simpl; tauto | constructor].
  - destruct (Ascii.eqb_spec c sep) as [->|Hne].
    + constructor; [simpl; tauto | exact IH].
    + destruct (split sep r) as [|w ws]; [constructor; [|constructor]|].
      * simpl. intros [H|[]]. congruence.
      * inversion IH as [|? ? Hw Hws]; subst. constructor; [|exact Hws].
        simpl. intros [H|H]; [congruence | contradiction].
Qed.

Lemma chars_app a b : chars (a ++ b)%string = chars a ++ chars b.
Proof. induction a as [|c a IH]; simpl; [reflexivity | rewrite IH; reflexivity]. Qed.

Lemma length_chars s : length (chars s) = String.length s.
Proof. induction s as [|c s IH]; simpl; [reflexivity | rewrite IH; reflexivity]. Qed.

Lemma joinEmpty_clean sep (ws : list string) :
  Forall (fun w => ~ In sep (chars w)) ws ->
  ~ In sep (chars (joinEmpty (map charAt0 ws)))
  /\ String.length (joinEmpty (map charAt0 ws))
     = length (List.filter (fun w => negb (String.eqb w EmptyString)) ws).
Proof.
  induction 1 as [|w ws Hw Hws IH]; simpl; [tauto|].
  destruct IH as [IH1 IH2].
  destruct w as [|c w]; simpl; [tauto|].
  split; [|rewrite IH2; reflexivity].
  intros [H|H]; [apply Hw; left; exact H | contradiction].
Qed.

(** X17: the initials shown in an avatar contain no space, and there is
    one character for each piece of the name between spaces that is not
    empty. *)
Theorem initials_one_per_word (name : string) :
  ~ In " "%char (chars (initials name))
  /\ String.length (initials name)
     = length (List.filter (fun w => negb (String.eqb w EmptyString))
                           (split " " name))
  /\ (String.length (initials name) <= length (split " " name))%nat.
Proof.
  destruct (joinEmpty_clean " " (split " " name) (split_pieces_clean _ _))
    as [H1 H2].
  split; [exact H1|]. split; [exact H2|].
  unfold initials. rewrite H2. apply List.filter_length_le.
Qed.

Lemma firstName_spec (name : string) :
  exists w, firstName name = Some w
            /\ ~ In " "%char (chars w)
            /\ (name = w \/ exists rest, name = (w ++ " " ++ rest)%string).
Proof.
  unfold firstName. induction name as [|c r IH]; simpl.
  - exists EmptyString. simpl. tauto.
  - destruct (Ascii.eqb_spec c " "%char) as [->|Hne].
    + exists EmptyString. simpl. split; [reflexivity|]. split; [tauto|].
      right. exists r. reflexivity.
    + destruct IH as (w & Hw & Hclean & Hname).
      destruct (split " " r) as [|w' ws]; [discriminate|].
      simpl in Hw. injection Hw as ->.
      exists (String c w). split; [reflexivity|]. split.
      * simpl. intros [H|H]; [congruence | contradiction].
      * destruct Hname as [-> | [rest ->]]; [left; reflexivity|].
        right. exists rest. reflexivity.
Qed.

(** X18: for a partner that has a name, the first name shown under the
    marker is defined, contains no space, and is the part of the name
    before its first space (the whole name when there is none); for a
    partner whose record has no name, rendering the label throws. *)
Theorem first_name_is_first_word (partner : UserProfile) :
  (name partner = None -> firstNameOf partner = Throws)
  /\ (forall n, name partner = Some n ->
      exists w, firstNameOf partner = Renders (Some w)
                /\ ~ In " "%char (chars w)
                /\ (n = w \/ exists rest, n = (w ++ " " ++ rest)%string)).
Proof.
  unfold firstNameOf. split.
  - intros ->. reflexivity.
  - intros n ->. destruct (firstName_spec n) as (w & Hw & Hc & Hn).
    exists w. rewrite Hw. auto.
Qed.

Lemma first_name_is_first_word_witness :
  firstNameOf (profileOf "u9" MoreSamples.onboarded) = Throws
  /\ exists w, firstNameOf (person "Ada Lovelace" None None None None None)
               = Renders (Some w)
               /\ ("Ada Lovelace" = w
                   \/ exists rest, "Ada Lovelace" = (w ++ " " ++ rest))%string.
Proof.
  split.
  - apply (first_name_is_first_word (profileOf "u9" MoreSamples.onboarded)).
    reflexivity.
  - destruct (first_name_is_first_word
                (person "Ada Lovelace" None None None None None))
      as [_ H].
    destruct (H "Ada Lovelace"%string eq_refl) as (w & Hw & _ & Hn).
    exists w. split; [exact Hw | exact Hn].
Defined.

(** X19: the colour class of a marker follows the total: 90 and above is
    [text-success], 80 to 89 is [text-primary], anything below 80 is
    [text-accent]; the fallback class is never used. *)
Theorem marker_colour (t : Z) :
  getRingColor (getCompatibilityRing t)
  = (if (90 <=? t)%Z then "text-success"
     else if (80 <=? t)%Z then "text-primary" else "text-accent")%string
  /\ getRingColor (getCompatibilityRing t) <> "text-muted-foreground"%string.
Proof.
  unfold getCompatibilityRing.
  destruct (90 <=? t)%Z; [split; [reflexivity | discriminate]|].
  destruct (80 <=? t)%Z; split; try reflexivity; discriminate.
Qed.

End RenderFacts.

(** ** Further properties of the layout *)

Module LayoutMore.
Import Layout Terms MoreTerms Samples LayoutFacts.
#[local] Open Scope R_scope.

(** *** Layouts that need no adjustment *)

Lemma visitPair_idle (j k : nat) (st : list Position * bool) :
  ~ collides (fst st) j k -> visitPair j k st = st.
Proof.
  intros Hn. unfold visitPair.
  destruct (fst st !! j) as [pj|] eqn:Hj; [|reflexivity].
  destruct (fst st !! k) as [pk|] eqn:Hk; [|reflexivity].
  destruct (Rlt_dec (distance pj pk) MARGIN) as [Hd|Hd]; [|reflexivity].
  exfalso. apply Hn. exists pj, pk. auto.
Qed.

Lemma foldl_idle {S I} (f : S -> I -> S) (ok : I -> Prop) (items : list I)
    (st : S) :
  (forall i, ok i -> f st i = st) -> Forall ok items ->
  foldl f st items = st.
Proof.
  intros Hf Hall.
  induction Hall as [|i items Hi Hall IH]; simpl; [reflexivity|].
  rewrite (Hf i Hi). exact IH.
Qed.

Lemma pass_idle (positions : list Position) :
  wellSeparated positions -> pass positions = (positions, false).
Proof.
  intros Hw. unfold pass.
  apply (foldl_idle innerLoop (fun _ => True)); [|apply List.Forall_forall; auto].
  intros j _. unfold innerLoop. cbn [fst].
  apply (foldl_idle (fun st k => visitPair j k st) (fun k => j <> k)).
  - intros k Hjk. apply visitPair_idle. cbn [fst].
    intros (pj & pk & Hj & Hk & Hd).
    pose proof (Hw j k pj pk Hjk Hj Hk). lra.
  - apply List.Forall_forall. intros k Hk. apply in_seq in Hk. lia.
Qed.

Lemma short_separated (positions : list Position) :
  (length positions <= 1)%nat -> wellSeparated positions.
Proof.
  intros Hlen j k pj pk Hjk Hj Hk.
  apply lookup_lt_Some in Hj, Hk. lia.
Qed.

Lemma separated_one_pass (positions : list Position) :
  wellSeparated positions ->
  iterate MAX_ITERATIONS positions
  = {| final := positions; passes := 1; leftByBreak := true |}.
Proof. intros Hw. apply (iterate_quiet 49), pass_idle, Hw. Qed.

Lemma separated_fixed (positions : list Position) :
  wellSeparated positions -> adjustPositions positions = positions.
Proof.
  intros Hw. unfold adjustPositions.
  rewrite (separated_one_pass _ Hw). reflexivity.
Qed.

(** X21: a layout whose markers are pairwise at least [MARGIN] apart is
    returned as it is, after a single pass; so is the empty layout and a
    layout of one marker.  When the loop leaves through [break], adjusting
    its result again changes nothing. *)
Theorem separated_layout_untouched (positions : list Position) :
  (wellSeparated positions ->
     iterate MAX_ITERATIONS positions
     = {| final := positions; passes := 1; leftByBreak := true |}
     /\ adjustPositions positions = positions)
  /\ ((length positions <= 1)%nat -> adjustPositions positions = positions)
  /\ (leftByBreak (iterate MAX_ITERATIONS positions) = true ->
      adjustPositions (adjustPositions positions) = adjustPositions positions).
Proof.
  split; [|split].
  - intros Hw. split; [apply separated_one_pass, Hw | apply separated_fixed, Hw].
  - intros Hlen. apply separated_fixed, short_separated, Hlen.
  - intros Hb.
    destruct (iterate_outcome MAX_ITERATIONS positions) as (Hsep & _).
    specialize (Hsep Hb). apply separated_fixed. exact Hsep.
Qed.

Lemma separated_layout_untouched_witness :
  adjustPositions [pointA; pointC] = [pointA; pointC]
  /\ adjustPositions [pointA] = [pointA].
Proof.
  destruct (separated_layout_untouched [pointA; pointC]) as (H2 & _ & _).
  destruct (separated_layout_untouched [pointA]) as (_ & H1 & _).
  split; [|apply H1; simpl; lia].
  apply H2. intros j k pj pk Hjk Hj Hk.
  destruct j as [|[|j]], k as [|[|k]]; simpl in Hj, Hk;
    try discriminate; try congruence;
    injection Hj as <-; injection Hk as <-;
    [|rewrite distance_sym]; rewrite distance_A_C; unfold MARGIN; lra.
Defined.


(** *** The initial placement *)

Lemma radius_values (p : UserProfile) :
  radiusOf p = 0.25 \/ radiusOf p = 0.4 \/ radiusOf p = 0.6.
Proof.
  unfold radiusOf, ringRadius.
  destruct (getCompatibilityRing _) as [|[|n]]; auto.
Qed.

Lemma scaled_bound (c r t : R) :
  0 <= c -> 0 <= r <= 0.6 -> -1 <= t <= 1 ->
  0.4 * c <= c + r * c * t <= 1.6 * c.
Proof.
  intros Hc Hr Ht.
  assert (Hrc : 0 <= r * c) by (apply Rmult_le_pos; lra).
  assert (Hlo : 0 <= r * c * (1 + t)) by (apply Rmult_le_pos; lra).
  assert (Hhi : 0 <= r * c * (1 - t)) by (apply Rmult_le_pos; lra).
  assert (H2 : 0 <= (0.6 - r) * c) by (apply Rmult_le_pos; lra).
  lra.
Qed.

(** X22: in a container of width [w > 0] and height [h > 0] every marker
    starts well inside the container, strictly between 0.19 and 0.81 of the
    width and of the height (a ring reaches at most 0.6 of the way from the
    centre to the border); the first marker starts at the height of the
    centre, to the right of it.  When the initial markers are pairwise at
    least [MARGIN] apart, they are the result. *)
Theorem markers_start_inside
    (w h : R) (ms : list UserProfile) (i : nat) (position : Position) :
  0 < w -> 0 < h ->
  initialPositions w h ms !! i = Some position ->
  (0.19 * w < x position < 0.81 * w /\ 0.19 * h < y position < 0.81 * h)
  /\ (exists p, ms !! i = Some p /\ pid position = id p
        /\ (i = 0%nat -> y position = h / 2 /\ w / 2 < x position))
  /\ (wellSeparated (initialPositions w h ms) ->
      calculateRadarPositions (Some (w, h)) ms = initialPositions w h ms).
Proof.
  intros Hw Hh Hi. unfold initialPositions in Hi.
  rewrite list_lookup_imap in Hi.
  destruct (ms !! i) as [p|] eqn:Hp; [|discriminate].
  simpl in Hi. injection Hi as <-.
  unfold initialPosition. cbn [x y pid].
  set (t := INR i * 360 / INR (length ms) * PI / 180).
  pose proof (COS_bound t) as Hc. pose proof (SIN_bound t) as Hs.
  assert (Hr : 0.25 <= radiusOf p <= 0.6)
    by (destruct (radius_values p) as [-> | [-> | ->]]; lra).
  split; [|split].
  - assert (Hr' : 0 <= radiusOf p <= 0.6) by lra.
    assert (Hw' : 0 <= w / 2) by lra. assert (Hh' : 0 <= h / 2) by lra.
    pose proof (scaled_bound (w / 2) (radiusOf p) (cos t) Hw' Hr' Hc) as Hx.
    pose proof (scaled_bound (h / 2) (radiusOf p) (sin t) Hh' Hr' Hs) as Hy.
    split; lra.
  - exists p. split; [reflexivity|]. split; [reflexivity|].
    intros ->. unfold t. simpl INR.
    replace (0 * 360 / INR (length ms) * PI / 180) with 0
      by (unfold Rdiv; ring).
    rewrite cos_0, sin_0.
    assert (0 < radiusOf p * (w / 2)) by (apply Rmult_lt_0_compat; lra).
    split; lra.
  - intros Hsep. unfold calculateRadarPositions.
    apply separated_fixed. exact Hsep.
Qed.

Lemma markers_start_inside_witness :
  0.19 * 100 < x (initialPosition (100 / 2) (100 / 2) 2 1 (scored 82))
  < 0.81 * 100.
Proof.
  apply (markers_start_inside 100 100 [scored 95; scored 82] 1
           (initialPosition (100 / 2) (100 / 2) 2 1 (scored 82)));
    [lra | lra | reflexivity].
Defined.

(** *** One colliding pair *)



End LayoutMore.

(** ** The repulsion on binary64 numbers *)

Module Binary64Facts.
Import Floats Binary64.
#[local] Open Scope float_scope.






Lemma pass_of_two (m : MathLib) (positions : list Position) :
  length positions = 2%nat ->
  pass m positions = visitPair m 0 1 (positions, false).
Proof.
  destruct positions as [|a [|b [|c l]]]; try discriminate. intros _.
  unfold pass, innerLoop, visitPair. cbn.
  match goal with |- context [if ?c then _ else _] => destruct c end;
    reflexivity.
Qed.


(** With any conforming [Math], visiting [east] and [west] gives
    [eastPushed] and [westPushed], which are still closer than [MARGIN]. *)
Lemma visit_east_west (m : MathLib) :
  exactCases m ->
  visitPair m 0 1 ([east; west], false) = ([eastPushed; westPushed], true).
Proof.
  intros (Hpos & _ & Hcos & Hsin).
  unfold visitPair. cbn [fst lookup list_lookup].
  change (distance east west <? MARGIN) with true. cbv iota.
  unfold repel.
  rewrite (Hpos (x east - x west) eq_refl : atan2 m (y east - y west)
                                              (x east - x west) = 0).
  rewrite Hcos, Hsin. reflexivity.
Qed.


Lemma axisMath_exact : exactCases axisMath.
Proof. repeat split. Qed.




(** *** Two markers *)

Lemma iterate_step (m : MathLib) (n : nat) (positions : list Position) :
  iterate m (S n) positions
  = (let (positions', hasCollision) := pass m positions in
     if hasCollision then iterate m n positions' else positions').
Proof. reflexivity. Qed.

Lemma iterate_stuck (m : MathLib) (n : nat) (positions : list Position) :
  pass m positions = (positions, true) -> iterate m n positions = positions.
Proof.
  intros Hp. induction n as [|n IH]; [reflexivity|].
  rewrite iterate_step, Hp. exact IH.
Qed.

Lemma pass_separated (m : MathLib) (pj pk : Position) :
  (distance pj pk <? MARGIN) = false -> pass m [pj; pk] = ([pj; pk], false).
Proof.
  intros Hd. rewrite pass_of_two by reflexivity.
  unfold visitPair. cbn [fst lookup list_lookup]. rewrite Hd. reflexivity.
Qed.

Lemma pass_pushed (m : MathLib) :
  exactCases m ->
  pass m [eastPushed; westPushed] = ([eastPushed; westSettled], true).
Proof.
  intros (Hpos & _ & Hcos & Hsin). rewrite pass_of_two by reflexivity.
  unfold visitPair. cbn [fst lookup list_lookup].
  change (distance eastPushed westPushed <? MARGIN) with true. cbv iota.
  unfold repel.
  rewrite (Hpos (x eastPushed - x westPushed) eq_refl
           : atan2 m (y eastPushed - y westPushed)
                     (x eastPushed - x westPushed) = 0).
  rewrite Hcos, Hsin. reflexivity.
Qed.

Lemma pass_far (m : MathLib) :
  exactCases m -> pass m [farA; farB] = ([farA; farB], true).
Proof.
  intros (_ & Hzero & Hcos & Hsin). rewrite pass_of_two by reflexivity.
  unfold visitPair. cbn [fst lookup list_lookup].
  change (distance farA farB <? MARGIN) with true. cbv iota.
  unfold repel.
  rewrite (Hzero : atan2 m (y farA - y farB) (x farA - x farB) = 0).
  rewrite Hcos, Hsin. reflexivity.
Qed.

(** X24: two markers on binary64 numbers.  When their computed distance is
    not below [MARGIN], the first pass changes nothing and the loop
    returns them as they are.  Otherwise the outcome depends on rounding:
    [east] and [west] are repelled in the first pass and again in the
    second, the third pass finds them exactly [MARGIN] apart and the loop
    stops; [farA] and [farB], at the same place near 1e17, are not moved
    by any pass (the push of 5 is lost in rounding), so the loop runs all
    its passes and returns them still at the same place. *)
Theorem two_markers_rounded (m : MathLib) (pj pk : Position) :
  exactCases m ->
  ((distance pj pk <? MARGIN) = false ->
     pass m [pj; pk] = ([pj; pk], false)
     /\ adjustPositions m [pj; pk] = [pj; pk])
  /\ (pass m [east; west] = ([eastPushed; westPushed], true)
      /\ pass m [eastPushed; westPushed] = ([eastPushed; westSettled], true)
      /\ pass m [eastPushed; westSettled] = ([eastPushed; westSettled], false)
      /\ adjustPositions m [east; west] = [eastPushed; westSettled]
      /\ distance eastPushed westSettled = MARGIN)
  /\ (pass m [farA; farB] = ([farA; farB], true)
      /\ adjustPositions m [farA; farB] = [farA; farB]
      /\ distance farA farB = 0).
Proof.
  intros Hm. split; [|split].
  - intros Hd. split; [apply pass_separated, Hd|].
    unfold adjustPositions, MAX_ITERATIONS.
    rewrite iterate_step, (pass_separated m pj pk Hd). reflexivity.
  - assert (H1 : pass m [east; west] = ([eastPushed; westPushed], true)).
    { rewrite pass_of_two by reflexivity. apply visit_east_west, Hm. }
    assert (H3 : pass m [eastPushed; westSettled]
                 = ([eastPushed; westSettled], false))
      by (apply pass_separated; reflexivity).
    split; [exact H1|]. split; [apply pass_pushed, Hm|].
    split; [exact H3|]. split; [|reflexivity].
    unfold adjustPositions, MAX_ITERATIONS.
    rewrite iterate_step, H1. cbv iota beta.
    rewrite iterate_step, (pass_pushed m Hm). cbv iota beta.
    rewrite iterate_step, H3. reflexivity.
  - split; [apply pass_far, Hm|]. split; [|reflexivity].
    apply iterate_stuck, pass_far, Hm.
Qed.

Lemma two_markers_rounded_witness :
  adjustPositions axisMath [east; west] = [eastPushed; westSettled]
  /\ adjustPositions axisMath [farA; farB] = [farA; farB]
  /\ adjustPositions axisMath [eastPushed; westSettled]
     = [eastPushed; westSettled].
Proof.
  destruct (two_markers_rounded axisMath eastPushed westSettled
              axisMath_exact) as (Hfar & (_ & _ & _ & Hew & _) & (_ & Hff & _)).
  split; [exact Hew|]. split; [exact Hff|]. apply Hfar. reflexivity.
Defined.

End Binary64Facts.
